(** * ParcelAgent frontend: a shallow embedding of the React client

  The development follows the five JavaScript sources of the client:
  - [utils/SharedPref.js]        (module [SharedPref])
  - [services/authService.js]    (module [AuthService])
  - [components/ParcelForm.js]   (module [ParcelForm])
  - [components/ParcelResult.js] (module [ParcelResult])
  - [App.js]                     (module [App])

  A JavaScript string is a sequence of UTF-16 code units, so it is modelled
  as [list N]; component state is a record, an event handler is a function
  on those records, and an asynchronous handler is split at its [await]. *)

From Stdlib Require Import ZArith NArith QArith Bool Ascii String Lia.
From stdpp Require Import gmap strings list.

Local Open Scope N_scope.

(** ** JavaScript strings *)

Module JS.

(** A string value: its UTF-16 code units. *)
Abbreviation jsstring := (list N).

(** An ASCII literal of the source, as code units. *)
Definition lit (s : string) : jsstring :=
  List.map N_of_ascii (list_ascii_of_string s).

(** Truthiness of a string value: [!!s] is [true] unless [s] is empty. *)
Definition truthy (s : jsstring) : bool :=
  match s with [] => false | _ :: _ => true end.

(** [WhiteSpace] and [LineTerminator] of ECMAScript, the code units that
    [String.prototype.trim] strips. *)
Definition is_ws (c : N) : bool :=
  (c =? 0x09) || (c =? 0x0A) || (c =? 0x0B) || (c =? 0x0C) || (c =? 0x0D)
  || (c =? 0x20) || (c =? 0xA0) || (c =? 0x1680)
  || ((0x2000 <=? c) && (c <=? 0x200A))
  || (c =? 0x2028) || (c =? 0x2029) || (c =? 0x202F) || (c =? 0x205F)
  || (c =? 0x3000) || (c =? 0xFEFF).

Fixpoint trimStart (s : jsstring) : jsstring :=
  match s with
  | [] => []
  | c :: r => if is_ws c then trimStart r else s
  end.

Fixpoint trimEnd (s : jsstring) : jsstring :=
  match s with
  | [] => []
  | c :: r =>
      match trimEnd r with
      | [] => if is_ws c then [] else [c]
      | r' => c :: r'
      end
  end.

(** [s.trim()] *)
Definition trim (s : jsstring) : jsstring := trimEnd (trimStart s).

(** [s.startsWith(p)] *)
Fixpoint startsWith (p s : jsstring) : bool :=
  match p, s with
  | [], _ => true
  | _ :: _, [] => false
  | a :: p', b :: s' => (a =? b) && startsWith p' s'
  end.

(** A string neither begins nor ends with a whitespace code unit. *)
Definition trimmed (s : jsstring) : Prop :=
  (forall c, head s = Some c -> is_ws c = false) /\
  (forall c, last s = Some c -> is_ws c = false).

(** A string made of whitespace only (the empty string included). *)
Definition blank (s : jsstring) : Prop := Forall (fun c => is_ws c = true) s.

(** [c.toUpperCase()] for one code unit.  On Basic Latin it maps [a]-[z]
    to [A]-[Z] and leaves every other code unit as it is; beyond U+007F
    the mapping is Unicode's full table, which is not reproduced here, so
    the result is left open ([None]). *)
Definition toUpperCaseUnit (c : N) : option N :=
  if c <? 0x80
  then Some (if (0x61 <=? c) && (c <=? 0x7A) then c - 0x20 else c)
  else None.

(** [s.charAt(0).toUpperCase() + s.slice(1)], the capitalisation the
    components apply to option labels; [None] where [toUpperCaseUnit] is
    left open. *)
Definition capitalize (s : jsstring) : option jsstring :=
  match s with
  | [] => Some []
  | c :: r => (fun u => u :: r) <$> toUpperCaseUnit c
  end.

End JS.
Import JS.

(** ** utils/SharedPref.js *)

Module SharedPref.

(** [localStorage]: string keys, string values. *)
Abbreviation Storage := (gmap string jsstring).

(** [get token()]: [localStorage.getItem('authToken') || ''] *)
Definition token (ls : Storage) : jsstring :=
  match ls !! "authToken"%string with
  | Some v => if truthy v then v else []
  | None => []
  end.

(** [set token(value)] *)
Definition set_token (value : jsstring) (ls : Storage) : Storage :=
  if truthy value then <["authToken"%string := value]> ls
  else delete "authToken"%string ls.

(** [get userData()].  The user record is kept as its JSON text, so
    [JSON.parse]/[JSON.stringify] do not appear; [None] is [null]. *)
Definition userData (ls : Storage) : option jsstring :=
  match ls !! "userData"%string with
  | Some data => if truthy data then Some data else None
  | None => None
  end.

(** A user record is given by its [JSON.stringify] text.  The texts of
    the values that are falsy: [false], [0], the empty string and
    [null]. *)
Definition falsyRecord (text : jsstring) : bool :=
  bool_decide (text ∈ [lit "false"; lit "0"; [0x22; 0x22]; lit "null"]).

(** [set userData(value)]: [None] is [undefined]; a falsy value removes
    the key as a missing one does. *)
Definition set_userData (value : option jsstring) (ls : Storage) : Storage :=
  match value with
  | Some v =>
      if falsyRecord v then delete "userData"%string ls
      else <["userData"%string := v]> ls
  | None => delete "userData"%string ls
  end.

Definition clear (ls : Storage) : Storage :=
  delete "userData"%string (delete "authToken"%string ls).

(** A headers object. *)
Abbreviation Headers := (gmap string jsstring).

(** [a ?? b] on a value that may be [null]/[undefined]. *)
Definition nullish (a : option jsstring) (b : jsstring) : jsstring :=
  match a with Some v => v | None => b end.

Definition getApiHeaders (ls : Storage) : Headers :=
  <["Authorization"%string := nullish (Some (token ls)) []]>
    (<["Content-Type"%string := lit "application/json"]> ∅).

End SharedPref.

(** ** services/authService.js *)

Module AuthService.

(** The singleton's fields; [None] is [null]. *)
Record State := {
  token : option jsstring;
  userData : option jsstring
}.

Definition constructor (ls : SharedPref.Storage) : State :=
  {| token := Some (SharedPref.token ls);
     userData := SharedPref.userData ls |}.

(** [!!this.token] *)
Definition isAuthenticated (a : State) : bool :=
  match token a with
  | Some t => truthy t
  | None => false
  end.

Definition getCurrentUser (a : State) : option jsstring := userData a.

Definition getAuthHeaders (ls : SharedPref.Storage) : SharedPref.Headers :=
  SharedPref.getApiHeaders ls.

(** The body of the authentication response, [await response.json()]. *)
Record LoginData := {
  ok : bool;
  data_token : option jsstring;
  user_record : option jsstring;
  statusText : option jsstring
}.

(** What [fetch] and [response.json()] do: throw, answer with a status
    outside 2xx, or deliver a body. *)
Inductive FetchOutcome :=
| Throws
| NotOk
| Body (data : LoginData).

Inductive LoginResult :=
| LoginSuccess (data : LoginData)
| LoginFailure (error : jsstring).

(** [data.statusText || 'Login failed. Please check your credentials.'] *)
Definition failureText (data : LoginData) : jsstring :=
  match statusText data with
  | Some e =>
      if truthy e then e
      else lit "Login failed. Please check your credentials."
  | None => lit "Login failed. Please check your credentials."
  end.

(** [login]: the new singleton, the new storage and the returned object.
    The [catch] block answers every exception with the same text. *)
Definition login (o : FetchOutcome) (a : State) (ls : SharedPref.Storage)
  : State * SharedPref.Storage * LoginResult :=
  match o with
  | Throws | NotOk =>
      (a, ls,
       LoginFailure
         (lit "Login failed. Please check your credentials and try again."))
  | Body data =>
      match data_token data with
      | Some t =>
          if ok data && truthy t then
            ({| token := Some t; userData := user_record data |},
             SharedPref.set_userData (user_record data)
               (SharedPref.set_token t ls),
             LoginSuccess data)
          else (a, ls, LoginFailure (failureText data))
      | None => (a, ls, LoginFailure (failureText data))
      end
  end.

Definition logout (a : State) (ls : SharedPref.Storage)
  : State * SharedPref.Storage :=
  ({| token := None; userData := None |}, SharedPref.clear ls).

(** [{...this.getAuthHeaders(), ...options.headers}]: a key of
    [options.headers] replaces the same key of the authentication headers. *)
Definition requestHeaders (ls : SharedPref.Storage)
    (optionHeaders : SharedPref.Headers) : SharedPref.Headers :=
  optionHeaders ∪ getAuthHeaders ls.

(** What [makeAuthenticatedRequest] hands back: the response (its status
    is all the method looks at), [null], or the exception of [fetch]. *)
Inductive RequestResult :=
| Returned (status : N)
| ReturnedNull
| Rethrown.

(** [makeAuthenticatedRequest], given what [fetch] does: [None] when it
    throws, the status of the response otherwise.  On 401 the method logs
    out and asks for a reload of the page. *)
Definition makeAuthenticatedRequest (fetched : option N) (a : State)
    (ls : SharedPref.Storage)
  : State * SharedPref.Storage * RequestResult :=
  match fetched with
  | None => (a, ls, Rethrown)
  | Some status =>
      if status =? 401
      then let (a', ls') := logout a ls in (a', ls', ReturnedNull)
      else (a, ls, Returned status)
  end.

End AuthService.

(** ** The browser's number control

  The weight field of the quick form is an [<input type="number">]; what
  the form accepts there is decided by the constraint validation of HTML,
  driven by the attributes the source gives the element. *)

Module Html.

Definition is_digit (c : N) : bool := (0x30 <=? c) && (c <=? 0x39).

(** The longest prefix of ASCII digits, and what follows it. *)
Fixpoint span_digits (s : jsstring) : jsstring * jsstring :=
  match s with
  | [] => ([], [])
  | c :: r =>
      if is_digit c
      then let (d, t) := span_digits r in (c :: d, t)
      else ([], s)
  end.

Definition digits_value (ds : jsstring) : Z :=
  fold_left (fun acc d => (10 * acc + Z.of_N (d - 0x30))%Z) ds 0%Z.

Definition parse_sign (s : jsstring) : bool * jsstring :=
  match s with
  | c :: r => if c =? 0x2D then (true, r) else (false, s)
  | [] => (false, s)
  end.

(** Digits, then optionally a dot and digits; or a dot and digits.  The
    result is all the digits, how many follow the dot, and the rest. *)
Definition parse_mantissa (s : jsstring) : option (jsstring * nat * jsstring) :=
  let (ip, s1) := span_digits s in
  match s1 with
  | c :: r =>
      if c =? 0x2E then
        let (fp, s2) := span_digits r in
        match fp with
        | [] => None
        | _ => Some (ip ++ fp, length fp, s2)
        end
      else match ip with [] => None | _ => Some (ip, 0%nat, s1) end
  | [] => match ip with [] => None | _ => Some (ip, 0%nat, s1) end
  end.

(** Nothing, or [e]/[E], an optional sign and digits up to the end. *)
Definition parse_exponent (s : jsstring) : option Z :=
  match s with
  | [] => Some 0%Z
  | c :: r =>
      if (c =? 0x65) || (c =? 0x45) then
        let '(neg, r1) :=
          match r with
          | d :: r' =>
              if d =? 0x2D then (true, r')
              else if d =? 0x2B then (false, r') else (false, r)
          | [] => (false, r)
          end in
        match span_digits r1 with
        | ((_ :: _) as ds, []) =>
            Some (if neg then (- digits_value ds)%Z else digits_value ds)
        | _ => None
        end
      else None
  end.

Definition scale (q : Q) (e : Z) : Q :=
  if (0 <=? e)%Z then (q * inject_Z (10 ^ e))%Q
  else (q / inject_Z (10 ^ (- e)))%Q.

(** The exact number a "valid floating-point number" of HTML denotes;
    [None] for any other text. *)
Definition parseDecimal (s : jsstring) : option Q :=
  let (neg, s1) := parse_sign s in
  match parse_mantissa s1 with
  | None => None
  | Some (ds, k, s2) =>
      match parse_exponent s2 with
      | None => None
      | Some e =>
          let m := Qmake (digits_value ds) (Z.to_pos (10 ^ Z.of_nat k)) in
          Some (scale (if neg then (- m)%Q else m) e)
      end
  end.

(** [p / r], for [0 <= p] and [0 < r], rounded to the nearest integer, a
    tie going to the even one. *)
Definition roundHalfEven (p r : Z) : Z :=
  let fl := (p / r)%Z in
  match (2 * (p mod r) ?= r)%Z with
  | Lt => fl
  | Gt => (fl + 1)%Z
  | Eq => if Z.even fl then fl else (fl + 1)%Z
  end.

(** The [e] with [2 ^ e <= n / d < 2 ^ (e + 1)], for [0 < n] and [0 < d]. *)
Definition floorLog2 (n d : Z) : Z :=
  let e0 := (Z.log2 n - Z.log2 d)%Z in
  let below :=
    if (0 <=? e0)%Z then (n <? d * 2 ^ e0)%Z
    else (n * 2 ^ (- e0) <? d)%Z in
  if below then (e0 - 1)%Z else e0.

(** The conversion step of the "rules for parsing floating-point number
    values": the IEEE 754 double closest to [q], a tie going to the even
    significand; an error ([None]) when that would be [2 ^ 1024] or
    beyond.  A double is a multiple of [2 ^ (e - 52)], where [e] is the
    exponent of [q] and at least [-1022]; the result is the double as an
    exact rational, in lowest terms. *)
Definition toDouble (q : Q) : option Q :=
  let n := Z.abs (Qnum q) in
  let d := Zpos (Qden q) in
  if (n =? 0)%Z then Some 0%Q
  else
    let e := floorLog2 n d in
    let qe := (Z.max e (-1022) - 52)%Z in
    let m :=
      if (0 <=? qe)%Z then roundHalfEven n (d * 2 ^ qe)
      else roundHalfEven (n * 2 ^ (- qe)) d in
    let v :=
      if (0 <=? qe)%Z then inject_Z (m * 2 ^ qe)
      else Qmake m (Z.to_pos (2 ^ (- qe))) in
    if Qle_bool (inject_Z (2 ^ 1024)) v then None
    else Some (Qred (if (Qnum q <? 0)%Z then (- v)%Q else v)).

(** The number the control reads from its text, by the "rules for parsing
    floating-point number values" of HTML: the text has to be a valid
    floating-point number, and its value is converted to a double.
    [None] is the error, for which the control's value is the empty
    string. *)
Definition parseNumber (s : jsstring) : option Q :=
  match parseDecimal s with
  | Some q => toDouble q
  | None => None
  end.

(** The attributes of a number control that take part in validation. *)
Record NumberInput := {
  min : option Q;
  step : option Q;
  required : bool
}.

Definition is_integer (q : Q) : bool :=
  (Qnum q mod Zpos (Qden q) =? 0)%Z.

Definition rangeUnderflow (a : NumberInput) (v : Q) : bool :=
  match min a with
  | Some m => negb (Qle_bool m v)
  | None => false
  end.

(** The allowed values are the step base (the minimum when there is one)
    plus a whole number of steps; the default step is 1. *)
Definition stepMismatch (a : NumberInput) (v : Q) : bool :=
  let base := match min a with Some m => m | None => 0%Q end in
  let st := match step a with Some st => st | None => 1%Q end in
  negb (is_integer ((v - base) / st)%Q).

(** [checkValidity()] of the control holding [value]. *)
Definition valid (a : NumberInput) (value : jsstring) : bool :=
  match value with
  | [] => negb (required a)
  | _ :: _ =>
      match parseNumber value with
      | None => false
      | Some v => negb (rangeUnderflow a v) && negb (stepMismatch a v)
      end
  end.

End Html.

(** ** components/ParcelForm.js *)

Module ParcelForm.

Record QuickFormData := {
  company : jsstring;
  fromCity : jsstring;
  toCity : jsstring;
  weight : jsstring;
  material : jsstring
}.

(** The component's [useState] cells. *)
Record State := {
  message : jsstring;
  useQuickForm : bool;
  quickFormData : QuickFormData
}.

Definition initial : State :=
  {| message := [];
     useQuickForm := false;
     quickFormData :=
       {| company := []; fromCity := []; toCity := []; weight := [];
          material := [] |} |}.

(** [Object.values(quickFormData)], in insertion order. *)
Definition values (d : QuickFormData) : list jsstring :=
  [company d; fromCity d; toCity d; weight d; material d].

(** The template literal of the quick form. *)
Definition generatedMessage (d : QuickFormData) : jsstring :=
  lit "Create a parcel for " ++ company d ++ lit " from " ++ fromCity d
  ++ lit " to " ++ toCity d ++ lit ", " ++ weight d ++ lit "kg "
  ++ material d.

(** [handleSubmit]: the argument [onSubmit] is called with, if it is
    called at all. *)
Definition handleSubmit (f : State) : option jsstring :=
  if useQuickForm f then Some (generatedMessage (quickFormData f))
  else if truthy (trim (message f)) then Some (trim (message f))
  else None.

Definition isFormValid (f : State) : bool :=
  if useQuickForm f
  then forallb (fun value => truthy (trim value)) (values (quickFormData f))
  else truthy (trim (message f)).

(** The [disabled] attribute of the submit button. *)
Definition submitDisabled (isLoading : bool) (f : State) : bool :=
  negb (isFormValid f) || isLoading.

(** [<input type="number" ... min="1" required />], no [step]. *)
Definition weightInput : Html.NumberInput :=
  {| Html.min := Some 1%Q; Html.step := None; Html.required := true |}.

(** The form carries no [noValidate]: before the [submit] event reaches
    [handleSubmit] the browser checks every rendered control, all of them
    [required]. *)
Definition checkValidity (f : State) : bool :=
  if useQuickForm f then
    let d := quickFormData f in
    truthy (company d) && truthy (fromCity d) && truthy (toCity d)
    && Html.valid weightInput (weight d) && truthy (material d)
  else truthy (message f).

(** A click on the submit button reaches [handleSubmit]. *)
Definition canSubmit (isLoading : bool) (f : State) : bool :=
  negb (submitDisabled isLoading f) && checkValidity f.

Inductive Field := Company | FromCity | ToCity | Weight | Material.

(** [setQuickFormData(prev => ({...prev, [field]: value}))] *)
Definition handleQuickFormChange (field : Field) (value : jsstring)
    (f : State) : State :=
  let d := quickFormData f in
  {| message := message f;
     useQuickForm := useQuickForm f;
     quickFormData :=
       match field with
       | Company =>
           {| company := value; fromCity := fromCity d; toCity := toCity d;
              weight := weight d; material := material d |}
       | FromCity =>
           {| company := company d; fromCity := value; toCity := toCity d;
              weight := weight d; material := material d |}
       | ToCity =>
           {| company := company d; fromCity := fromCity d; toCity := value;
              weight := weight d; material := material d |}
       | Weight =>
           {| company := company d; fromCity := fromCity d;
              toCity := toCity d; weight := value; material := material d |}
       | Material =>
           {| company := company d; fromCity := fromCity d;
              toCity := toCity d; weight := weight d; material := value |}
       end |}.

(** [quickFormData[field]] *)
Definition getField (field : Field) (d : QuickFormData) : jsstring :=
  match field with
  | Company => company d
  | FromCity => fromCity d
  | ToCity => toCity d
  | Weight => weight d
  | Material => material d
  end.

(** [setMessage], from the textarea and from [handleVoiceTranscription]. *)
Definition setMessage (value : jsstring) (f : State) : State :=
  {| message := value; useQuickForm := useQuickForm f;
     quickFormData := quickFormData f |}.

(** [setUseQuickForm(!useQuickForm)] *)
Definition toggleQuickForm (f : State) : State :=
  {| message := message f; useQuickForm := negb (useQuickForm f);
     quickFormData := quickFormData f |}.

(** The labels of the [<option>]s rendered from a list of names. *)
Definition optionLabels (names : list jsstring) : option (list jsstring) :=
  mapM capitalize names.

End ParcelForm.

(** ** components/ParcelResult.js *)

Module ParcelResult.

(** [result.parcel_info]; a missing property is [None]. *)
Record ParcelInfo := {
  company : option jsstring;
  from_city : option jsstring;
  to_city : option jsstring;
  weight : option jsstring;
  material : option jsstring
}.

(** The [result] prop: the body the backend answered with. *)
Record Result := {
  success : bool;
  message : jsstring;
  parcel_info : option ParcelInfo
}.

(** U+2753, the question-mark ornament of a clarifying question. *)
Definition qmark : N := 0x2753.
(** U+20B9, the rupee sign. *)
Definition rupee : N := 0x20B9.

Definition isClarifyingQuestion (message : jsstring) : bool :=
  startsWith [qmark] message.

(** The two regular expressions have the shape [/<literal>(<class>+)/]. *)
Fixpoint takeWhile (cls : N -> bool) (s : jsstring) : jsstring :=
  match s with
  | [] => []
  | c :: r => if cls c then c :: takeWhile cls r else []
  end.

(** A match that starts at the first code unit of [s]: the literal, then
    the longest non-empty run of the class, which is the capture. *)
Definition match_here (literal : jsstring) (cls : N -> bool) (s : jsstring)
  : option jsstring :=
  if startsWith literal s then
    match takeWhile cls (drop (length literal) s) with
    | [] => None
    | cap => Some cap
    end
  else None.

(** [s.match(re)[1]]: the capture of the leftmost match, [None] for
    [null]. *)
Fixpoint search (literal : jsstring) (cls : N -> bool) (s : jsstring)
  : option jsstring :=
  match match_here literal cls s with
  | Some cap => Some cap
  | None =>
      match s with
      | [] => None
      | _ :: r => search literal cls r
      end
  end.

(** [[^\n]] *)
Definition notNewline (c : N) : bool := negb (c =? 0x0A).
(** [[0-9,]] *)
Definition digitOrComma (c : N) : bool := Html.is_digit c || (c =? 0x2C).

Definition parcelIdLiteral : jsstring := lit "Parcel ID: ".
Definition costLiteral : jsstring := lit "Cost: " ++ [rupee].

Definition parcelIdMatch (message : jsstring) : option jsstring :=
  search parcelIdLiteral notNewline message.
Definition costMatch (message : jsstring) : option jsstring :=
  search costLiteral digitOrComma message.

Definition parcelId (message : jsstring) : jsstring :=
  match parcelIdMatch message with Some m => m | None => lit "N/A" end.
Definition cost (message : jsstring) : jsstring :=
  match costMatch message with Some m => m | None => lit "29997" end.

(** The pattern matches nowhere in [message]: the literal is never
    followed by a code unit of the class. *)
Definition lacks (literal : jsstring) (cls : N -> bool) (message : jsstring)
  : Prop :=
  forall pre c rest, message = pre ++ literal ++ c :: rest -> cls c = false.

(** The leftmost match of the pattern in [message] captures [value]: the
    literal, then [value] as a maximal run of the class, and no match
    starting further left. *)
Definition carries (literal : jsstring) (cls : N -> bool)
    (message value : jsstring) : Prop :=
  exists pre rest,
    message = pre ++ literal ++ value ++ rest
    /\ value <> []
    /\ Forall (fun c => cls c = true) value
    /\ (forall c, head rest = Some c -> cls c = false)
    /\ (forall i, (i < length pre)%nat ->
          match_here literal cls (drop i message) = None).

(** [handleClarifyingSubmit]: the argument [onClarifyingResponse] is
    called with, if it is called. *)
Definition handleClarifyingSubmit (clarifyingInput : jsstring)
  : option jsstring :=
  if truthy (trim clarifyingInput) then Some (trim clarifyingInput)
  else None.

(** The three summary cards' texts that come from the message, and the
    message itself under "AI Response". *)
Record Cards := {
  shownParcelId : jsstring;
  shownCost : jsstring;
  aiResponse : jsstring
}.

(** What the component returns. *)
Inductive View :=
| Nothing
| Clarifying (question : jsstring) (submitDisabled : bool)
| Terminal (succeeded : bool) (cards : option Cards)
    (failureText : option jsstring).

Definition render (result : option Result) (clarifyingInput : jsstring)
  : View :=
  match result with
  | None => Nothing
  | Some r =>
      if isClarifyingQuestion (message r)
      then Clarifying (message r) (negb (truthy (trim clarifyingInput)))
      else
        Terminal (success r)
          (match parcel_info r with
           | Some _ =>
               if success r
               then Some {| shownParcelId := parcelId (message r);
                            shownCost := cost (message r);
                            aiResponse := message r |}
               else None
           | None => None
           end)
          (if success r then None else Some (message r))
  end.

End ParcelResult.

(** ** App.js *)

Module App.

Record State := {
  isAuthenticated : bool;
  currentUser : option jsstring;
  isLoading : bool;
  result : option ParcelResult.Result;
  error : option jsstring;
  cities : list jsstring;
  materials : list jsstring
}.

(** The [useState] initial values. *)
Definition initial : State :=
  {| isAuthenticated := false; currentUser := None; isLoading := false;
     result := None; error := None; cities := []; materials := [] |}.

Definition checkAuth (a : AuthService.State) (st : State) : State :=
  {| isAuthenticated := AuthService.isAuthenticated a;
     currentUser := AuthService.getCurrentUser a;
     isLoading := isLoading st; result := result st; error := error st;
     cities := cities st; materials := materials st |}.

(** One of the two [axios.get] calls of [loadData]: it rejects, or it
    resolves with a body whose list may be missing. *)
Inductive GetOutcome :=
| GetFails
| GetData (names : option (list jsstring)).

Definition fallbackCities : list jsstring := [lit "jaipur"; lit "kolkata"].
Definition fallbackMaterials : list jsstring := [lit "paint"; lit "chemicals"].

(** [x || []] *)
Definition orEmpty (names : option (list jsstring)) : list jsstring :=
  match names with Some l => l | None => [] end.

(** [loadData], once [Promise.all] has settled. *)
Definition loadData (c m : GetOutcome) (st : State) : State :=
  let set cs ms :=
    {| isAuthenticated := isAuthenticated st; currentUser := currentUser st;
       isLoading := isLoading st; result := result st; error := error st;
       cities := cs; materials := ms |} in
  match c, m with
  | GetData cs, GetData ms => set (orEmpty cs) (orEmpty ms)
  | _, _ => set fallbackCities fallbackMaterials
  end.

Definition handleLogin (loginData : AuthService.LoginData) (st : State)
  : State :=
  {| isAuthenticated := true;
     currentUser := AuthService.user_record loginData;
     isLoading := isLoading st; result := result st; error := error st;
     cities := cities st; materials := materials st |}.

(** The state part of [handleLogout]; [authService.logout()] is applied
    to the singleton by the caller. *)
Definition handleLogout (st : State) : State :=
  {| isAuthenticated := false; currentUser := None;
     isLoading := isLoading st; result := None; error := None;
     cities := cities st; materials := materials st |}.

(** [axios.post('/api/create-parcel', {message}, {headers})] *)
Record Request := {
  body_message : jsstring;
  headers : SharedPref.Headers
}.

(** How the awaited [axios.post] ends: with a body, or with an exception
    whose [response?.data?.detail] may be missing. *)
Inductive PostOutcome :=
| Resolved (data : ParcelResult.Result)
| Rejected (detail : option jsstring).

(** [handleSubmit] up to its [await]. *)
Definition handleSubmit_begin (ls : SharedPref.Storage) (message : jsstring)
    (st : State) : State * Request :=
  ({| isAuthenticated := isAuthenticated st; currentUser := currentUser st;
      isLoading := true; result := None; error := None;
      cities := cities st; materials := materials st |},
   {| body_message := message;
      headers := AuthService.getAuthHeaders ls |}).

(** [handleSubmit] from its [await] on, [finally] included. *)
Definition handleSubmit_settle (o : PostOutcome) (st : State) : State :=
  let finish res err :=
    {| isAuthenticated := isAuthenticated st; currentUser := currentUser st;
       isLoading := false; result := res; error := err;
       cities := cities st; materials := materials st |} in
  match o with
  | Resolved data =>
      if ParcelResult.success data
      then finish (Some data) (error st)
      else finish (result st) (Some (lit "Failed to create parcel"))
  | Rejected detail =>
      finish (result st)
        (Some (match detail with
               | Some d =>
                   if truthy d then d
                   else lit "An error occurred while creating the parcel"
               | None => lit "An error occurred while creating the parcel"
               end))
  end.

(** The state once [handleSubmit message] has run to its end with
    outcome [o]. *)
Definition submitted (ls : SharedPref.Storage) (message : jsstring)
    (o : PostOutcome) (st : State) : State :=
  handleSubmit_settle o (fst (handleSubmit_begin ls message st)).

(** [handleClarifyingResponse]: [await handleSubmit(clarifyingMessage)]. *)
Definition handleClarifyingResponse (ls : SharedPref.Storage)
    (clarifyingMessage : jsstring) (st : State) : State * Request :=
  handleSubmit_begin ls clarifyingMessage st.

Definition resetForm (st : State) : State :=
  {| isAuthenticated := isAuthenticated st; currentUser := currentUser st;
     isLoading := isLoading st; result := None; error := None;
     cities := cities st; materials := materials st |}.

(** What [error && ...] and [result && ...] put on the page: the error
    text and the result card. *)
Definition page (st : State) (clarifyingInput : jsstring)
  : option jsstring * ParcelResult.View :=
  (match error st with
   | Some e => if truthy e then Some e else None
   | None => None
   end,
   ParcelResult.render (result st) clarifyingInput).

End App.

(** ** The running client

  The page as a transition system: the singleton, [localStorage], the
  three components' state and the requests that have been sent and not
  yet answered.  An event is enabled only when the element that raises it
  is on the page and not disabled. *)

Module Client.

Record World := {
  storage : SharedPref.Storage;
  auth : AuthService.State;
  app : App.State;
  form : ParcelForm.State;
  clarifyingInput : jsstring;
  (** [POST /api/create-parcel] requests awaiting their answer *)
  pending : list App.Request;
  (** [loadData] calls awaiting their answer *)
  loading : nat
}.

(** The module is evaluated ([new AuthService()]), [App] mounts and its
    two effects run. *)
Definition mount (ls : SharedPref.Storage) : World :=
  let a := AuthService.constructor ls in
  let st := App.checkAuth a App.initial in
  {| storage := ls; auth := a; app := st; form := ParcelForm.initial;
     clarifyingInput := []; pending := [];
     loading := if App.isAuthenticated st then 1%nat else 0%nat |}.

(** What can happen to the page: the user acts on an element, or a request
    is answered.  [LoginPage] is not among the sources; [Login] takes it to
    call [authService.login] and, when that succeeds, [onLogin] with the
    answered body. *)
Inductive Event :=
| TypeMessage (value : jsstring)
| VoiceTranscript (transcript : jsstring)
| ToggleQuickForm
| QuickFormChange (field : ParcelForm.Field) (value : jsstring)
| SubmitForm
| TypeClarifying (value : jsstring)
| SubmitClarifying
| PostSettles (i : nat) (o : App.PostOutcome)
| LoadSettles (c m : App.GetOutcome)
| ResetForm
| Logout
| Login (o : AuthService.FetchOutcome).

Definition with_form (w : World) (f : ParcelForm.State) : World :=
  {| storage := storage w; auth := auth w; app := app w; form := f;
     clarifyingInput := clarifyingInput w; pending := pending w;
     loading := loading w |}.

(** [App.handleSubmit] is entered with [message]: the state changes and
    the request leaves.  [ParcelResult] unmounts as [result] is cleared. *)
Definition submit (message : jsstring) (w : World) : World :=
  let (st, rq) := App.handleSubmit_begin (storage w) message (app w) in
  {| storage := storage w; auth := auth w; app := st; form := form w;
     clarifyingInput := []; pending := pending w ++ [rq];
     loading := loading w |}.

(** Is the clarifying card on the page? *)
Definition clarifyingShown (w : World) : bool :=
  match ParcelResult.render (App.result (app w)) (clarifyingInput w) with
  | ParcelResult.Clarifying _ _ => true
  | _ => false
  end.

Definition step (w : World) (e : Event) : option World :=
  let authed := App.isAuthenticated (app w) in
  match e with
  | TypeMessage v | VoiceTranscript v =>
      if authed && negb (ParcelForm.useQuickForm (form w))
      then Some (with_form w (ParcelForm.setMessage v (form w)))
      else None
  | ToggleQuickForm =>
      if authed then Some (with_form w (ParcelForm.toggleQuickForm (form w)))
      else None
  | QuickFormChange fd v =>
      if authed && ParcelForm.useQuickForm (form w)
      then Some (with_form w (ParcelForm.handleQuickFormChange fd v (form w)))
      else None
  | SubmitForm =>
      if authed && ParcelForm.canSubmit (App.isLoading (app w)) (form w)
      then match ParcelForm.handleSubmit (form w) with
           | Some u => Some (submit u w)
           | None => Some w
           end
      else None
  | TypeClarifying v =>
      if authed && clarifyingShown w
      then Some {| storage := storage w; auth := auth w; app := app w;
                   form := form w; clarifyingInput := v;
                   pending := pending w; loading := loading w |}
      else None
  | SubmitClarifying =>
      if authed && clarifyingShown w
      then match ParcelResult.handleClarifyingSubmit (clarifyingInput w) with
           | Some u => Some (submit u w)
           | None => Some w
           end
      else None
  | PostSettles i o =>
      match pending w !! i with
      | Some _ =>
          Some {| storage := storage w; auth := auth w;
                  app := App.handleSubmit_settle o (app w);
                  form := form w; clarifyingInput := [];
                  pending := delete i (pending w);
                  loading := loading w |}
      | None => None
      end
  | LoadSettles c m =>
      match loading w with
      | S n =>
          Some {| storage := storage w; auth := auth w;
                  app := App.loadData c m (app w);
                  form := form w; clarifyingInput := clarifyingInput w;
                  pending := pending w; loading := n |}
      | O => None
      end
  | ResetForm =>
      if authed
      then Some {| storage := storage w; auth := auth w;
                   app := App.resetForm (app w);
                   form := form w; clarifyingInput := [];
                   pending := pending w; loading := loading w |}
      else None
  | Logout =>
      if authed
      then let (a, ls) := AuthService.logout (auth w) (storage w) in
           Some {| storage := ls; auth := a;
                   app := App.handleLogout (app w);
                   form := ParcelForm.initial; clarifyingInput := [];
                   pending := pending w; loading := loading w |}
      else None
  | Login o =>
      if authed then None
      else
        match AuthService.login o (auth w) (storage w) with
        | (a, ls, AuthService.LoginSuccess data) =>
            Some {| storage := ls; auth := a;
                    app := App.handleLogin data (app w);
                    form := ParcelForm.initial; clarifyingInput := [];
                    pending := pending w; loading := S (loading w) |}
        | (a, ls, AuthService.LoginFailure _) =>
            Some {| storage := ls; auth := a; app := app w; form := form w;
                    clarifyingInput := clarifyingInput w;
                    pending := pending w; loading := loading w |}
        end
  end.

(** At most one post is awaiting its answer, [isLoading] says whether one
    is, and no result is on the page while one is. *)
Definition one_in_flight (w : World) : Prop :=
  (length (pending w) <= 1)%nat
  /\ (App.isLoading (app w) = true <-> pending w <> [])
  /\ (App.isLoading (app w) = true -> App.result (app w) = None).

(** The singleton and [localStorage] agree on the token. *)
Definition token_in_sync (w : World) : Prop :=
  AuthService.isAuthenticated (auth w) = true <->
  exists t, storage w !! "authToken"%string = Some t /\ t <> [].

Definition isLoadSettles (e : Event) : bool :=
  match e with LoadSettles _ _ => true | _ => false end.

(** The two lists the form offers, and the labels it shows for them. *)
Definition catalog (w : World) : list jsstring * list jsstring :=
  (App.cities (app w), App.materials (app w)).

Definition catalogLabels (w : World)
  : option (list jsstring) * option (list jsstring) :=
  (ParcelForm.optionLabels (App.cities (app w)),
   ParcelForm.optionLabels (App.materials (app w))).

(** A request with some text to parse and a token to show. *)
Definition well_formed_request (rq : App.Request) : Prop :=
  App.body_message rq <> []
  /\ exists t, App.headers rq !! "Authorization"%string = Some t /\ t <> [].

(** The form is on the page only while a token is stored, and every
    request awaiting its answer is well formed. *)
Definition requests_in_order (w : World) : Prop :=
  (App.isAuthenticated (app w) = true ->
   exists t, storage w !! "authToken"%string = Some t /\ t <> [])
  /\ Forall well_formed_request (pending w).

(** Running a list of events, stopping at the first that is not enabled. *)
Fixpoint run (w : World) (es : list Event) : option World :=
  match es with
  | [] => Some w
  | e :: es' =>
      match step w e with
      | Some w' => run w' es'
      | None => None
      end
  end.

End Client.

(** ** The Completeness Validator

  The client only posts the utterance; the Entity Set and its validator
  live in the backend, which is not among the sources. *)

Module Core.

(** Modelled from the spec: the backend's schema is missing from the
    sources.  The five required fields, in the order of §4.3. *)
Inductive Field := Company | OriginCity | DestinationCity | WeightKg | Material.

(** Modelled from the spec: the backend's field status is missing from
    the sources.  §3: [unset], [stated], or [invalid] with the original
    text kept. *)
Inductive FieldValue :=
| Unset
| Stated (value : jsstring)
| Invalid (originalText : jsstring).

(** Modelled from the spec: the backend's Entity Set is missing from the
    sources.  §9: a closed record with a status tag per field. *)
Record EntitySet := {
  company : FieldValue;
  originCity : FieldValue;
  destinationCity : FieldValue;
  weightKg : FieldValue;
  material : FieldValue
}.

Definition empty : EntitySet :=
  {| company := Unset; originCity := Unset; destinationCity := Unset;
     weightKg := Unset; material := Unset |}.

#[global] Instance Field_eq_dec : EqDecision Field.
Proof. solve_decision. Defined.

Definition get (f : Field) (es : EntitySet) : FieldValue :=
  match f with
  | Company => company es
  | OriginCity => originCity es
  | DestinationCity => destinationCity es
  | WeightKg => weightKg es
  | Material => material es
  end.

Definition set (f : Field) (v : FieldValue) (es : EntitySet) : EntitySet :=
  match f with
  | Company =>
      {| company := v; originCity := originCity es;
         destinationCity := destinationCity es; weightKg := weightKg es;
         material := material es |}
  | OriginCity =>
      {| company := company es; originCity := v;
         destinationCity := destinationCity es; weightKg := weightKg es;
         material := material es |}
  | DestinationCity =>
      {| company := company es; originCity := originCity es;
         destinationCity := v; weightKg := weightKg es;
         material := material es |}
  | WeightKg =>
      {| company := company es; originCity := originCity es;
         destinationCity := destinationCity es; weightKg := v;
         material := material es |}
  | Material =>
      {| company := company es; originCity := originCity es;
         destinationCity := destinationCity es; weightKg := weightKg es;
         material := v |}
  end.

(** Modelled from the spec: the validator's reasons are missing from the
    sources.  §4.3: [missing] or [invalid:<originalText>]. *)
Inductive Reason :=
| Missing
| InvalidText (originalText : jsstring).

Inductive Verdict :=
| Complete
| Incomplete (outstanding : list (Field * Reason)).

Definition requiredFields : list Field :=
  [Company; OriginCity; DestinationCity; WeightKg; Material].

(** The position of a field in the fixed order. *)
Definition rank (f : Field) : nat :=
  match f with
  | Company => 0 | OriginCity => 1 | DestinationCity => 2
  | WeightKg => 3 | Material => 4
  end.

Definition reasonOf (v : FieldValue) : option Reason :=
  match v with
  | Unset => Some Missing
  | Invalid t => Some (InvalidText t)
  | Stated _ => None
  end.

(** The outstanding entries among the fields [fs], in the order of [fs]. *)
Definition outstandingIn (fs : list Field) (es : EntitySet)
  : list (Field * Reason) :=
  omap (fun f => (fun r => (f, r)) <$> reasonOf (get f es)) fs.

(** Modelled from the spec: the Completeness Validator is missing from
    the sources.  §4.3: [Complete], or the ordered list of
    [(field, reason)] over the required fields. *)
Definition validate (es : EntitySet) : Verdict :=
  match outstandingIn requiredFields es with
  | [] => Complete
  | l => Incomplete l
  end.

(** Modelled from the spec: the merge of the Dialogue State Manager is
    missing from the sources.  §4.4: a candidate field overwrites when it
    is [stated] or [invalid], never when it is [unset]. *)
Definition mergeField (old new : FieldValue) : FieldValue :=
  match new with
  | Unset => old
  | _ => new
  end.

Definition merge (old candidate : EntitySet) : EntitySet :=
  {| company := mergeField (company old) (company candidate);
     originCity := mergeField (originCity old) (originCity candidate);
     destinationCity :=
       mergeField (destinationCity old) (destinationCity candidate);
     weightKg := mergeField (weightKg old) (weightKg candidate);
     material := mergeField (material old) (material candidate) |}.

(** Modelled from the spec: the Extractor's output is missing from the
    sources.  A turn's findings, in the order they were extracted, make
    the candidate Entity Set of the turn. *)
Definition candidate (findings : list (Field * FieldValue)) : EntitySet :=
  foldl (fun es fv => set (fst fv) (snd fv) es) empty findings.

End Core.


(** ** components/VoiceRecorder.js

    The handlers of the recognition object are created inside an effect
    whose only dependency is [onTranscriptionComplete]; what they read of
    the component's state is the value of the render in which the effect
    ran.  Those values are an explicit argument, [Captured]; the
    functional update [setFinalTranscript(prev => ...)] reads the state
    itself. *)

Module VoiceRecorder.

Record State := {
  isRecording : bool;
  transcript : jsstring;
  finalTranscript : jsstring;
  interimTranscript : jsstring;
  error : jsstring;
  isSupported : bool;
  (** [recognitionRef.current] is set *)
  recognitionRef : bool;
  (** [silenceTimeoutRef.current] is set *)
  silenceTimeoutRef : bool
}.

(** The [useState] and [useRef] initial values. *)
Definition initial : State :=
  {| isRecording := false; transcript := []; finalTranscript := [];
     interimTranscript := []; error := []; isSupported := true;
     recognitionRef := false; silenceTimeoutRef := false |}.

(** The effect, up to the handlers: without a [SpeechRecognition]
    constructor the component gives up, with one it keeps the object. *)
Definition setup (hasSpeechRecognition : bool) (st : State) : State :=
  if hasSpeechRecognition then
    {| isRecording := isRecording st; transcript := transcript st;
       finalTranscript := finalTranscript st;
       interimTranscript := interimTranscript st; error := error st;
       isSupported := isSupported st; recognitionRef := true;
       silenceTimeoutRef := silenceTimeoutRef st |}
  else
    {| isRecording := isRecording st; transcript := transcript st;
       finalTranscript := finalTranscript st;
       interimTranscript := interimTranscript st;
       error := lit "Speech recognition is not supported in your browser. Please use Chrome, Edge, or Safari.";
       isSupported := false; recognitionRef := recognitionRef st;
       silenceTimeoutRef := silenceTimeoutRef st |}.

(** The state as the handlers' closure sees it. *)
Record Captured := {
  c_finalTranscript : jsstring;
  c_interimTranscript : jsstring;
  c_isRecording : bool
}.

(** [event.results[i]]: [results[i][0].transcript] and [isFinal]. *)
Record SpeechResult := {
  r_transcript : jsstring;
  isFinal : bool
}.

Record ResultEvent := {
  resultIndex : nat;
  results : list SpeechResult
}.

(** The loop of [onresult]: [newFinalTranscript] and
    [newInterimTranscript] after the results from [resultIndex] on. *)
Definition collect (ev : ResultEvent) : jsstring * jsstring :=
  foldl
    (fun acc r =>
       if isFinal r then (acc.1 ++ r_transcript r, acc.2)
       else (acc.1, acc.2 ++ r_transcript r))
    ([], []) (drop (resultIndex ev) (results ev)).

Definition onstart (st : State) : State :=
  {| isRecording := true; transcript := transcript st;
     finalTranscript := finalTranscript st;
     interimTranscript := interimTranscript st; error := [];
     isSupported := isSupported st; recognitionRef := recognitionRef st;
     silenceTimeoutRef := silenceTimeoutRef st |}.

Definition onresult (c : Captured) (ev : ResultEvent) (st : State) : State :=
  let newFinalTranscript := (collect ev).1 in
  let newInterimTranscript := (collect ev).2 in
  {| isRecording := isRecording st;
     transcript :=
       trim (c_finalTranscript c ++ newFinalTranscript ++ newInterimTranscript);
     finalTranscript := finalTranscript st ++ newFinalTranscript;
     interimTranscript := newInterimTranscript;
     error := error st; isSupported := isSupported st;
     recognitionRef := recognitionRef st; silenceTimeoutRef := true |}.

Definition onerror (eventError : jsstring) (st : State) : State :=
  {| isRecording := false; transcript := transcript st;
     finalTranscript := finalTranscript st;
     interimTranscript := interimTranscript st;
     error := lit "Speech recognition error: " ++ eventError;
     isSupported := isSupported st; recognitionRef := recognitionRef st;
     silenceTimeoutRef := silenceTimeoutRef st |}.

(** [onend]: the new state and the argument [onTranscriptionComplete] is
    called with, if it is called. *)
Definition onend (c : Captured) (st : State) : State * option jsstring :=
  let completeTranscript :=
    trim (c_finalTranscript c ++ c_interimTranscript c) in
  if truthy completeTranscript then
    ({| isRecording := false; transcript := completeTranscript;
        finalTranscript := finalTranscript st;
        interimTranscript := interimTranscript st; error := error st;
        isSupported := isSupported st; recognitionRef := recognitionRef st;
        silenceTimeoutRef := false |},
     Some completeTranscript)
  else
    ({| isRecording := false; transcript := transcript st;
        finalTranscript := finalTranscript st;
        interimTranscript := interimTranscript st; error := error st;
        isSupported := isSupported st; recognitionRef := recognitionRef st;
        silenceTimeoutRef := false |},
     None).

(** [startRecording]; [startThrows] says whether [recognition.start()]
    throws. *)
Definition startRecording (startThrows : bool) (st : State) : State :=
  if negb (isSupported st) || negb (recognitionRef st) then st
  else
    {| isRecording := isRecording st; transcript := [];
       finalTranscript := []; interimTranscript := [];
       error :=
         if startThrows
         then lit "Failed to start recording. Please try again."
         else [];
       isSupported := isSupported st; recognitionRef := recognitionRef st;
       silenceTimeoutRef := false |}.

(** [stopRecording]: is [recognition.stop()] called? *)
Definition stopRecording (st : State) : bool :=
  recognitionRef st && isRecording st.

(** The "Send to Chat" button: on the page when there is a transcript and
    no recording; a click calls [onTranscriptionComplete(transcript)]. *)
Definition sendToChat (st : State) : option jsstring :=
  if isSupported st && truthy (transcript st) && negb (isRecording st)
  then Some (transcript st)
  else None.

(** The text after "Last recording:":
    [transcript.length > 150 ? transcript.substring(0, 150) + '...' : transcript] *)
Definition lastRecordingLabel (t : jsstring) : jsstring :=
  if (150 <? length t)%nat then take 150 t ++ lit "..." else t.

(** The hint under a long transcript is shown. *)
Definition longTextHint (t : jsstring) : bool := (200 <? length t)%nat.

Inductive Event :=
| OnStart
| OnResult (c : Captured) (ev : ResultEvent)
| OnError (eventError : jsstring)
| OnEnd (c : Captured)
| StartRecording (startThrows : bool)
| SendToChat.

(** One event: the new state and what [onTranscriptionComplete] gets. *)
Definition step (st : State) (e : Event) : State * option jsstring :=
  match e with
  | OnStart => (onstart st, None)
  | OnResult c ev => (onresult c ev st, None)
  | OnError eventError => (onerror eventError st, None)
  | OnEnd c => onend c st
  | StartRecording startThrows => (startRecording startThrows st, None)
  | SendToChat => (st, sendToChat st)
  end.

(** A list of events: the last state and every transcript handed to
    [onTranscriptionComplete], in order. *)
Fixpoint run (st : State) (es : list Event) : State * list jsstring :=
  match es with
  | [] => (st, [])
  | e :: es' =>
      let (st1, d) := step st e in
      let (st2, ds) := run st1 es' in
      (st2, match d with Some t => t :: ds | None => ds end)
  end.

End VoiceRecorder.

(** ** Sample data *)

Module Examples.

(** A parcel description as the backend echoes it. *)
Definition info : ParcelResult.ParcelInfo :=
  {| ParcelResult.company := Some (lit "ABC Company");
     ParcelResult.from_city := Some (lit "jaipur");
     ParcelResult.to_city := Some (lit "kolkata");
     ParcelResult.weight := Some (lit "50kg");
     ParcelResult.material := Some (lit "paint") |}.

(** A success whose text names the parcel and the price in words of its
    own. *)
Definition created : ParcelResult.Result :=
  {| ParcelResult.success := true;
     ParcelResult.message := lit "Parcel PRC-7 created, cost Rs 1250";
     ParcelResult.parcel_info := Some info |}.

(** A success whose text has the two lines the patterns look for. *)
Definition receipt : ParcelResult.Result :=
  {| ParcelResult.success := true;
     ParcelResult.message :=
       lit "Parcel ID: PRC-7" ++ [0x0A] ++ lit "Cost: "
       ++ [ParcelResult.rupee] ++ lit "1,250";
     ParcelResult.parcel_info := Some info |}.

(** The backend refuses the parcel and says why. *)
Definition rejected : ParcelResult.Result :=
  {| ParcelResult.success := false;
     ParcelResult.message := lit "route not serviced";
     ParcelResult.parcel_info := None |}.

(** The backend asks for the company; the description so far has none. *)
Definition question : ParcelResult.Result :=
  {| ParcelResult.success := true;
     ParcelResult.message :=
       [ParcelResult.qmark] ++ lit " Which company is the parcel for?";
     ParcelResult.parcel_info :=
       Some {| ParcelResult.company := None;
               ParcelResult.from_city := Some (lit "jaipur");
               ParcelResult.to_city := Some (lit "kolkata");
               ParcelResult.weight := Some (lit "50kg");
               ParcelResult.material := Some (lit "paint") |} |}.

(** A storage holding a token. *)
Definition loggedIn : SharedPref.Storage :=
  <["authToken"%string := lit "tok-1"]> ∅.

(** The login page signs the user in. *)
Definition signIn : Client.Event :=
  Client.Login
    (AuthService.Body
       {| AuthService.ok := true;
          AuthService.data_token := Some (lit "tok-1");
          AuthService.user_record := None;
          AuthService.statusText := None |}).

(** A first utterance without a company, the backend's question, and the
    user's answer to it. *)
Definition twoTurns : list Client.Event :=
  [ Client.LoadSettles (App.GetData (Some [lit "jaipur"; lit "kolkata"]))
      (App.GetData (Some [lit "paint"]));
    Client.TypeMessage (lit "Create a parcel from Jaipur to Kolkata, 50kg paint");
    Client.SubmitForm;
    Client.PostSettles 0 (App.Resolved question);
    Client.TypeClarifying (lit "ABC Company");
    Client.SubmitClarifying ].

(** The page once the answer has been sent. *)
Definition answerSent : Client.World :=
  default (Client.mount loggedIn) (Client.run (Client.mount loggedIn) twoTurns).

(** Two logins with a logout between them: the lookup of the second login
    fails, then the lookup of the first is answered. *)
Definition staleLookup : list Client.Event :=
  [ signIn; Client.Logout; signIn;
    Client.LoadSettles App.GetFails App.GetFails;
    Client.LoadSettles (App.GetData (Some [lit "delhi"]))
      (App.GetData (Some [lit "steel"])) ].

(** The same run when the materials lookup fails. *)
Definition lookupFails : list Client.Event :=
  Client.LoadSettles (App.GetData (Some [lit "delhi"])) App.GetFails
  :: tail twoTurns.

(** A recorder that has heard one sentence, the closure of handlers
    created before it did, and an event that points past its results. *)
Definition heard : VoiceRecorder.State :=
  {| VoiceRecorder.isRecording := true;
     VoiceRecorder.transcript := lit "50kg paint";
     VoiceRecorder.finalTranscript := lit "50kg paint";
     VoiceRecorder.interimTranscript := [];
     VoiceRecorder.error := [];
     VoiceRecorder.isSupported := true;
     VoiceRecorder.recognitionRef := true;
     VoiceRecorder.silenceTimeoutRef := true |}.

Definition staleClosure : VoiceRecorder.Captured :=
  {| VoiceRecorder.c_finalTranscript := [];
     VoiceRecorder.c_interimTranscript := [];
     VoiceRecorder.c_isRecording := false |}.

Definition pastTheEnd : VoiceRecorder.ResultEvent :=
  {| VoiceRecorder.resultIndex := 1;
     VoiceRecorder.results :=
       [ {| VoiceRecorder.r_transcript := lit "50kg paint";
            VoiceRecorder.isFinal := true |} ] |}.

End Examples.

(** * Properties *)

(** ** Trimming *)

Section Trim.

Lemma trimStart_head (s : jsstring) (c : N) :
  head (trimStart s) = Some c -> is_ws c = false.
Proof.
  induction s as [|a r IH]; simpl; [discriminate|].
  destruct (is_ws a) eqn:Ha; [exact IH|].
  simpl. intros [= <-]. exact Ha.
Qed.

Lemma trimEnd_last (s : jsstring) (c : N) :
  last (trimEnd s) = Some c -> is_ws c = false.
Proof.
  induction s as [|a r IH]; simpl; [discriminate|].
  destruct (trimEnd r) as [|b r'] eqn:Hr.
  - destruct (is_ws a) eqn:Ha; simpl; [discriminate|].
    intros [= <-]. exact Ha.
  - intros H. apply IH. rewrite last_cons in H.
    destruct (last (b :: r')) eqn:Hl; [exact H|].
    apply last_None in Hl. discriminate.
Qed.

(** Trimming the end keeps the first code unit of what is left. *)
Lemma trimEnd_head (s : jsstring) (c : N) :
  head (trimEnd s) = Some c -> head s = Some c.
Proof.
  destruct s as [|a r]; simpl; [discriminate|].
  destruct (trimEnd r); [destruct (is_ws a)|]; simpl; congruence.
Qed.

Lemma trim_trimmed (s : jsstring) : trimmed (trim s).
Proof.
  split; intros c H.
  - apply trimEnd_head in H. eapply trimStart_head, H.
  - eapply trimEnd_last, H.
Qed.

Lemma trimStart_nil (s : jsstring) : trimStart s = [] <-> blank s.
Proof.
  unfold blank. induction s as [|a r IH]; simpl.
  - split; [constructor|reflexivity].
  - destruct (is_ws a) eqn:Ha.
    + rewrite IH. split; [by constructor|by inversion 1].
    + split; [discriminate|]. inversion 1; congruence.
Qed.

Lemma trimEnd_nil (s : jsstring) : trimEnd s = [] <-> blank s.
Proof.
  unfold blank. induction s as [|a r IH]; simpl.
  - split; [constructor|reflexivity].
  - destruct (trimEnd r) as [|b r'] eqn:Hr.
    + destruct (is_ws a) eqn:Ha.
      * split; [|reflexivity]. intros _. constructor; [exact Ha|].
        by apply IH.
      * split; [discriminate|]. inversion 1; congruence.
    + split; [discriminate|]. inversion 1 as [|? ? _ Hb]; subst.
      apply IH in Hb. discriminate.
Qed.

(** What [trimStart] leaves is a suffix, so it is blank only if the whole
    string is. *)
Lemma trimStart_blank (s : jsstring) : blank (trimStart s) <-> blank s.
Proof.
  unfold blank. induction s as [|a r IH]; simpl; [reflexivity|].
  destruct (is_ws a) eqn:Ha; [|reflexivity].
  rewrite IH. split; [by constructor|by inversion 1].
Qed.

Lemma trim_nil (s : jsstring) : trim s = [] <-> blank s.
Proof. unfold trim. rewrite trimEnd_nil. apply trimStart_blank. Qed.

Lemma truthy_trim (s : jsstring) : truthy (trim s) = true <-> ~ blank s.
Proof.
  rewrite <- trim_nil. destruct (trim s); simpl; split; done.
Qed.

Lemma truthy_false (s : jsstring) : truthy s = false <-> s = [].
Proof. by destruct s. Qed.

End Trim.

(** ** ParcelForm *)

Section ParcelFormProperties.

Import ParcelForm.

(** C10.  In free-text mode [handleSubmit] calls [onSubmit] only with the
    trimmed message, which is then non-empty and has no whitespace at
    either end; a message of whitespace only is not submitted.  The form
    is valid exactly when the message is not blank (free text) or none of
    the five quick-form fields is blank, and the submit button is
    disabled exactly when the form is not valid or a request is in
    flight. *)
Theorem parcel_form_submit_gate :
  forall (m : jsstring) (d : QuickFormData) (isLoading : bool),
    let free := {| message := m; useQuickForm := false; quickFormData := d |} in
    let quick := {| message := m; useQuickForm := true; quickFormData := d |} in
    match handleSubmit free with
    | Some u => u = trim m /\ u <> [] /\ trimmed u /\ ~ blank m
    | None => blank m
    end
    /\ (isFormValid free = true <-> ~ blank m)
    /\ (isFormValid quick = true <->
        ~ blank (company d) /\ ~ blank (fromCity d) /\ ~ blank (toCity d)
        /\ ~ blank (weight d) /\ ~ blank (material d))
    /\ (forall f, submitDisabled isLoading f = true <->
                  isFormValid f = false \/ isLoading = true).
Proof.
  intros m d isLoading free quick. split; [|split; [|split]].
  - unfold handleSubmit; simpl.
    destruct (truthy (trim m)) eqn:Ht.
    + split; [reflexivity|]. split; [|split].
      * intros E. rewrite E in Ht. discriminate.
      * apply trim_trimmed.
      * by apply truthy_trim.
    + apply trim_nil, truthy_false, Ht.
  - unfold isFormValid; simpl. apply truthy_trim.
  - unfold isFormValid, values; simpl. rewrite !andb_true_iff.
    rewrite !truthy_trim. tauto.
  - intros f. unfold submitDisabled.
    rewrite orb_true_iff, negb_true_iff. tauto.
Qed.

End ParcelFormProperties.

(** ** The two patterns of ParcelResult *)

Section Patterns.

Import ParcelResult.

Lemma startsWith_spec (p s : jsstring) :
  startsWith p s = true <-> exists rest, s = p ++ rest.
Proof.
  revert s. induction p as [|a p IH]; intros s; simpl.
  - split; [eauto|reflexivity].
  - destruct s as [|b s].
    + split; [discriminate|]. intros [rest H]. discriminate.
    + rewrite andb_true_iff, N.eqb_eq, IH. split.
      * intros [-> [rest ->]]. eauto.
      * intros [rest [= -> ->]]. eauto.
Qed.

Lemma startsWith_app (p rest : jsstring) : startsWith p (p ++ rest) = true.
Proof. apply startsWith_spec. eauto. Qed.

Variable cls : N -> bool.

Lemma takeWhile_app (cap rest : jsstring) :
  Forall (fun c => cls c = true) cap ->
  (forall c, head rest = Some c -> cls c = false) ->
  takeWhile cls (cap ++ rest) = cap.
Proof.
  intros Hcap Hrest. induction Hcap as [|a cap Ha _ IH]; simpl.
  - destruct rest as [|b rest]; [reflexivity|].
    simpl. by rewrite (Hrest b).
  - by rewrite Ha, IH.
Qed.

Lemma takeWhile_nil (s : jsstring) :
  takeWhile cls s = [] <-> forall c, head s = Some c -> cls c = false.
Proof.
  destruct s as [|a s]; simpl.
  - split; [discriminate|reflexivity].
  - destruct (cls a) eqn:Ha.
    + split; [discriminate|]. intros H. specialize (H a eq_refl). congruence.
    + split; [|reflexivity]. intros _ c [= <-]. exact Ha.
Qed.

Variable literal : jsstring.

(** No match starts at the head of [s] exactly when [s] is not the
    literal followed by a code unit of the class. *)
Lemma match_here_None (s : jsstring) :
  match_here literal cls s = None <->
  forall c rest, s = literal ++ c :: rest -> cls c = false.
Proof.
  unfold match_here. destruct (startsWith literal s) eqn:Hs.
  - apply startsWith_spec in Hs as [t ->].
    rewrite drop_app_length.
    destruct (takeWhile cls t) eqn:Ht.
    + pose proof (proj1 (takeWhile_nil t) Ht) as Hh. split; [|reflexivity].
      intros _ c rest E. apply app_inv_head in E. subst t. by apply Hh.
    + split; [discriminate|]. intros H.
      destruct t as [|c t]; [discriminate|].
      simpl in Ht. rewrite (H c t eq_refl) in Ht. discriminate.
  - split; [|reflexivity]. intros _ c rest E.
    rewrite E, startsWith_app in Hs. discriminate.
Qed.

(** A match at the head: the capture is the whole run of the class. *)
Lemma match_here_Some (cap rest : jsstring) :
  cap <> [] ->
  Forall (fun c => cls c = true) cap ->
  (forall c, head rest = Some c -> cls c = false) ->
  match_here literal cls (literal ++ cap ++ rest) = Some cap.
Proof.
  intros Hne Hcap Hrest. unfold match_here.
  rewrite startsWith_app, drop_app_length, takeWhile_app by assumption.
  by destruct cap.
Qed.

(** The pattern matches nowhere exactly when the literal is never
    followed by a code unit of the class. *)
Lemma search_None (s : jsstring) :
  search literal cls s = None <->
  forall pre c rest, s = pre ++ literal ++ c :: rest -> cls c = false.
Proof.
  induction s as [|a s IH]; simpl.
  - destruct (match_here literal cls []) eqn:Hm.
    + split; [discriminate|]. intros H.
      assert (match_here literal cls [] = None) as E; [|congruence].
      apply match_here_None. intros c rest Heq. by apply (H [] c rest).
    + split; [|reflexivity]. intros _ pre c rest E.
      destruct pre; [|discriminate].
      eapply match_here_None; [exact Hm|exact E].
  - destruct (match_here literal cls (a :: s)) eqn:Hm.
    + split; [discriminate|]. intros H.
      assert (match_here literal cls (a :: s) = None) as E; [|congruence].
      apply match_here_None. intros c rest Heq. by apply (H [] c rest).
    + rewrite IH. split.
      * intros H pre c rest E. destruct pre as [|b pre].
        -- eapply match_here_None; [exact Hm|exact E].
        -- injection E as -> E. by apply (H pre c rest).
      * intros H pre c rest E. apply (H (a :: pre) c rest). by rewrite E.
Qed.

(** The leftmost match wins: with no match starting inside [pre], the
    capture is the run that follows the literal. *)
Lemma search_leftmost (pre cap rest : jsstring) :
  cap <> [] ->
  Forall (fun c => cls c = true) cap ->
  (forall c, head rest = Some c -> cls c = false) ->
  (forall i, (i < length pre)%nat ->
     match_here literal cls (drop i (pre ++ literal ++ cap ++ rest)) = None) ->
  search literal cls (pre ++ literal ++ cap ++ rest) = Some cap.
Proof.
  intros Hne Hcap Hrest. induction pre as [|a pre IH]; intros Hpre.
  - simpl. destruct (literal ++ cap ++ rest) eqn:E; simpl;
      rewrite <- E, match_here_Some by assumption; reflexivity.
  - pose proof (Hpre 0%nat ltac:(simpl; lia)) as H0. rewrite drop_0 in H0.
    change ((a :: pre) ++ literal ++ cap ++ rest)
      with (a :: (pre ++ literal ++ cap ++ rest)) in *.
    cbn [search]. rewrite H0.
    apply IH. intros i Hi. apply (Hpre (S i)). simpl; lia.
Qed.

End Patterns.

(** ** ParcelResult *)

Section ParcelResultProperties.

Import ParcelResult.

Lemma lacks_search (literal : jsstring) (cls : N -> bool) (m : jsstring) :
  lacks literal cls m <-> search literal cls m = None.
Proof. symmetry. apply search_None. Qed.

Lemma carries_search (literal : jsstring) (cls : N -> bool)
    (m value : jsstring) :
  carries literal cls m value -> search literal cls m = Some value.
Proof.
  intros (pre & rest & -> & Hne & Hall & Hrest & Hleft).
  by apply search_leftmost.
Qed.

Lemma isClarifyingQuestion_spec (m : jsstring) :
  isClarifyingQuestion m = true <-> exists rest, m = qmark :: rest.
Proof. unfold isClarifyingQuestion. apply startsWith_spec. Qed.

(** What the terminal card shows for a success that has [parcel_info]. *)
Lemma render_success (r : Result) (ci : jsstring) :
  success r = true -> parcel_info r <> None ->
  isClarifyingQuestion (message r) = false ->
  render (Some r) ci =
    Terminal true
      (Some {| shownParcelId := parcelId (message r);
               shownCost := cost (message r);
               aiResponse := message r |})
      None.
Proof.
  intros Hs Hp Hq. unfold render. rewrite Hq, Hs.
  by destruct (parcel_info r).
Qed.

(** C9.  A result is shown as a clarifying question exactly when its
    message starts with U+2753; every other message gets the terminal
    success/failure card.  When the message has no match of
    [Cost: ₹([0-9,]+)] the cost is the constant ['29997'], when it has
    none of [Parcel ID: ([^\n]+)] the parcel ID is ['N/A'], and these are
    the texts a success card shows. *)
Theorem parcel_result_classification :
  forall (r : Result) (ci : jsstring),
    (isClarifyingQuestion (message r) = true <->
     exists rest, message r = qmark :: rest)
    /\ match render (Some r) ci with
       | Clarifying q _ =>
           isClarifyingQuestion (message r) = true /\ q = message r
       | Terminal ok _ _ =>
           isClarifyingQuestion (message r) = false /\ ok = success r
       | Nothing => False
       end
    /\ (lacks costLiteral digitOrComma (message r) ->
        cost (message r) = lit "29997")
    /\ (lacks parcelIdLiteral notNewline (message r) ->
        parcelId (message r) = lit "N/A")
    /\ (success r = true -> parcel_info r <> None ->
        isClarifyingQuestion (message r) = false ->
        exists cards,
          render (Some r) ci = Terminal true (Some cards) None
          /\ shownCost cards = cost (message r)
          /\ shownParcelId cards = parcelId (message r)).
Proof.
  intros r ci. split; [apply isClarifyingQuestion_spec|].
  split; [|split; [|split]].
  - unfold render. by destruct (isClarifyingQuestion (message r)).
  - intros H. apply lacks_search in H. unfold cost, costMatch. by rewrite H.
  - intros H. apply lacks_search in H.
    unfold parcelId, parcelIdMatch. by rewrite H.
  - intros Hs Hp Hq. eexists. split; [by apply render_success|]. by simpl.
Qed.

Lemma parcel_result_classification_witness :
  cost (message Examples.created) = lit "29997"
  /\ parcelId (message Examples.created) = lit "N/A"
  /\ exists cards,
       render (Some Examples.created) [] = Terminal true (Some cards) None
       /\ shownCost cards = cost (message Examples.created)
       /\ shownParcelId cards = parcelId (message Examples.created).
Proof.
  destruct (parcel_result_classification Examples.created [])
    as (_ & _ & Hc & Hi & Hr).
  split; [|split].
  - apply Hc, lacks_search. reflexivity.
  - apply Hi, lacks_search. reflexivity.
  - apply Hr; [reflexivity|discriminate|reflexivity].
Defined.

End ParcelResultProperties.

(** ** App: a submission and its answer *)

Section SubmissionProperties.

Import ParcelResult App.

(** C2, as the claim states it, fails: a success whose message words the
    parcel and the price in its own way is shown with the built-in
    ['N/A'] and ['29997']. *)
Lemma submitted_result_shows_placeholders :
  snd (page (submitted Examples.loggedIn (lit "50kg paint for ABC Company")
               (Resolved Examples.created) initial) [])
  = Terminal true
      (Some {| shownParcelId := lit "N/A";
               shownCost := lit "29997";
               aiResponse := lit "Parcel PRC-7 created, cost Rs 1250" |})
      None.
Proof. reflexivity. Qed.

(** C2, amended.  After a success the state holds the answered body as it
    came, with no error and nothing in flight.  The card shows the parcel
    ID and the cost that the two patterns capture from the message: the
    very values when the message carries them as [Parcel ID: <id>] up to
    the end of the line and [Cost: ₹<digits and commas>], and the
    built-in ['N/A'] and ['29997'] when the message has no such text. *)
Theorem submit_success_surfaces_message_fields :
  forall (ls : SharedPref.Storage) (st : State) (utterance : jsstring)
         (data : Result) (ci : jsstring),
    success data = true ->
    let st' := submitted ls utterance (Resolved data) st in
    result st' = Some data /\ error st' = None /\ isLoading st' = false
    /\ (parcel_info data <> None ->
        isClarifyingQuestion (message data) = false ->
        exists cards,
          snd (page st' ci) = Terminal true (Some cards) None
          /\ aiResponse cards = message data
          /\ (forall tid,
                carries parcelIdLiteral notNewline (message data) tid ->
                shownParcelId cards = tid)
          /\ (forall price,
                carries costLiteral digitOrComma (message data) price ->
                shownCost cards = price)
          /\ (lacks parcelIdLiteral notNewline (message data) ->
              shownParcelId cards = lit "N/A")
          /\ (lacks costLiteral digitOrComma (message data) ->
              shownCost cards = lit "29997")).
Proof.
  intros ls st utterance data ci Hs st'.
  assert (result st' = Some data) as Hr.
  { unfold st', submitted, handleSubmit_settle. by rewrite Hs. }
  split; [exact Hr|]. split; [|split].
  - unfold st', submitted, handleSubmit_settle. by rewrite Hs.
  - unfold st', submitted, handleSubmit_settle. by rewrite Hs.
  - intros Hp Hq. eexists. split.
    { unfold page. rewrite Hr. simpl. by apply render_success. }
    simpl. split; [reflexivity|]. split; [|split; [|split]].
    + intros tid H. apply carries_search in H.
      unfold parcelId, parcelIdMatch. by rewrite H.
    + intros price H. apply carries_search in H.
      unfold cost, costMatch. by rewrite H.
    + intros H. apply lacks_search in H.
      unfold parcelId, parcelIdMatch. by rewrite H.
    + intros H. apply lacks_search in H.
      unfold cost, costMatch. by rewrite H.
Qed.

Lemma receipt_carries_id :
  carries parcelIdLiteral notNewline (message Examples.receipt) (lit "PRC-7").
Proof.
  exists [], ([0x0A] ++ lit "Cost: " ++ [rupee] ++ lit "1,250").
  split; [reflexivity|]. split; [discriminate|]. split; [|split].
  - repeat constructor.
  - intros c [= <-]. reflexivity.
  - intros i Hi. simpl in Hi. lia.
Defined.

Lemma receipt_carries_cost :
  carries costLiteral digitOrComma (message Examples.receipt) (lit "1,250").
Proof.
  exists (lit "Parcel ID: PRC-7" ++ [0x0A]), [].
  split; [reflexivity|]. split; [discriminate|]. split; [|split].
  - repeat constructor.
  - intros c [=].
  - intros i Hi. simpl in Hi.
    do 17 (destruct i as [|i]; [reflexivity|]). lia.
Defined.

Lemma submit_success_surfaces_message_fields_witness :
  exists cards,
    snd (page (submitted Examples.loggedIn (lit "50kg paint for ABC Company")
                 (Resolved Examples.receipt) initial) [])
    = Terminal true (Some cards) None
    /\ shownParcelId cards = lit "PRC-7"
    /\ shownCost cards = lit "1,250".
Proof.
  destruct (submit_success_surfaces_message_fields Examples.loggedIn initial
              (lit "50kg paint for ABC Company") Examples.receipt []
              eq_refl) as (_ & _ & _ & H).
  destruct H as (cards & Hpage & _ & Hid & Hcost & _);
    [discriminate|reflexivity|].
  exists cards. split; [exact Hpage|]. split.
  - apply Hid, receipt_carries_id.
  - apply Hcost, receipt_carries_cost.
Defined.

(** C3, on the code.  When the backend answers the post with
    [success: false] and the reason in [message], [handleSubmit] stores
    the fixed text ['Failed to create parcel'] and drops the answer: the
    page shows that text and no result card.  The reason does reach the
    page on the two sibling paths: [ParcelResult] renders the message of
    a failed result it is given, and a rejected request shows its
    [detail] as it came. *)
Theorem rejection_reason_replaced_by_fixed_text :
  forall (ls : SharedPref.Storage) (st : State) (utterance ci : jsstring),
    let st' := submitted ls utterance (Resolved Examples.rejected) st in
    error st' = Some (lit "Failed to create parcel")
    /\ result st' = None
    /\ page st' ci = (Some (lit "Failed to create parcel"), Nothing)
    /\ render (Some Examples.rejected) ci
       = Terminal false None (Some (lit "route not serviced"))
    /\ error (submitted ls utterance
                (Rejected (Some (lit "route not serviced"))) st)
       = Some (lit "route not serviced").
Proof. intros. repeat split. Qed.

(** C1, on the code.  [handleClarifyingResponse] posts the answer alone:
    the request is made of the answer's text and the stored token,
    whatever the page held before, and the page then holds what comes
    back for that request and nothing of the earlier turn.  In the
    two-turn run the request that leaves after the user's answer has the
    body ['ABC Company'], and the result of the first turn is gone. *)
Theorem clarifying_response_posted_without_context :
  (forall (ls : SharedPref.Storage) (st : State) (answer : jsstring)
          (o : PostOutcome),
      snd (handleClarifyingResponse ls answer st)
      = {| body_message := answer;
           headers := SharedPref.getApiHeaders ls |}
      /\ result (fst (handleClarifyingResponse ls answer st)) = None
      /\ result (handleSubmit_settle o
                   (fst (handleClarifyingResponse ls answer st)))
         = match o with
           | Resolved data => if success data then Some data else None
           | Rejected _ => None
           end)
  /\ (Client.pending <$>
        Client.run (Client.mount Examples.loggedIn) Examples.twoTurns)
     = Some [ {| body_message := lit "ABC Company";
                 headers := SharedPref.getApiHeaders Examples.loggedIn |} ]
  /\ ((fun w => result (Client.app w)) <$>
        Client.run (Client.mount Examples.loggedIn) Examples.twoTurns)
     = Some None.
Proof.
  split; [|split; vm_compute; reflexivity].
  intros ls st answer o. split; [reflexivity|]. split; [reflexivity|].
  destruct o as [data|detail]; simpl; [|reflexivity].
  by destruct (success data).
Qed.

End SubmissionProperties.

(** ** The running client *)

Section ClientProperties.

Import Client.

Lemma run_app (w : World) (es1 es2 : list Event) :
  run w (es1 ++ es2) = run w es1 ≫= fun w' => run w' es2.
Proof.
  revert w. induction es1 as [|e es1 IH]; intros w; simpl; [reflexivity|].
  destruct (step w e); simpl; [apply IH|reflexivity].
Qed.

(** A property that holds when the page mounts and that every enabled
    event keeps holds after any run. *)
Lemma run_invariant (P : World -> Prop) :
  (forall w e w', P w -> step w e = Some w' -> P w') ->
  forall es w w', P w -> run w es = Some w' -> P w'.
Proof.
  intros Hstep. induction es as [|e es IH]; intros w w' Hw; simpl.
  - by intros [= <-].
  - destruct (step w e) as [w1|] eqn:He; [|discriminate].
    apply IH. by eapply Hstep.
Qed.

Lemma mount_one_in_flight (ls : SharedPref.Storage) :
  one_in_flight (mount ls).
Proof. repeat split; simpl; try done; lia. Qed.

(** A world in which a post has just left an idle page. *)
Lemma submit_one_in_flight (w : World) (u : jsstring) :
  one_in_flight w -> App.isLoading (app w) = false ->
  one_in_flight (submit u w).
Proof.
  intros (Hlen & Hload & Hres) Hidle.
  assert (pending w = []) as Hp.
  { destruct (pending w) eqn:E; [done|].
    assert (App.isLoading (app w) = true) by (apply Hload; done).
    congruence. }
  unfold one_in_flight, submit; simpl. rewrite Hp. simpl.
  repeat split; try done; lia.
Qed.

Lemma step_one_in_flight (w : World) (e : Event) (w' : World) :
  one_in_flight w -> step w e = Some w' -> one_in_flight w'.
Proof.
  intros Hinv Hstep. pose proof Hinv as (Hlen & Hload & Hres).
  destruct e; simpl in Hstep.
  - destruct (_ && _); simplify_eq; exact Hinv.
  - destruct (_ && _); simplify_eq; exact Hinv.
  - destruct (App.isAuthenticated _); simplify_eq; exact Hinv.
  - destruct (_ && _); simplify_eq; exact Hinv.
  - destruct (App.isAuthenticated _); simpl in Hstep; [|discriminate].
    destruct (ParcelForm.canSubmit _ _) eqn:Hc; [|discriminate].
    destruct (ParcelForm.handleSubmit _); simplify_eq; [|exact Hinv].
    apply submit_one_in_flight; [exact Hinv|].
    unfold ParcelForm.canSubmit, ParcelForm.submitDisabled in Hc.
    destruct (App.isLoading (app w)); [|reflexivity].
    rewrite orb_true_r in Hc. discriminate.
  - destruct (_ && _); simplify_eq; exact Hinv.
  - destruct (App.isAuthenticated _); simpl in Hstep; [|discriminate].
    destruct (clarifyingShown w) eqn:Hc; [|discriminate].
    destruct (ParcelResult.handleClarifyingSubmit _); simplify_eq;
      [|exact Hinv].
    apply submit_one_in_flight; [exact Hinv|].
    destruct (App.isLoading (app w)) eqn:Hl; [|reflexivity].
    unfold clarifyingShown in Hc. rewrite (Hres eq_refl) in Hc.
    discriminate.
  - destruct (pending w !! i) eqn:Hi; simplify_eq.
    assert (pending w = [r] /\ i = 0%nat) as [Hp ->].
    { destruct (pending w) as [|r0 [|r1 l]]; simpl in *; try done; [|lia].
      destruct i; simpl in Hi; by simplify_eq. }
    unfold one_in_flight; simpl. rewrite Hp. simpl.
    assert (App.isLoading (App.handleSubmit_settle o (app w)) = false) as ->.
    { destruct o as [data|detail]; simpl; [|reflexivity].
      by destruct (ParcelResult.success data). }
    repeat split; try done; lia.
  - destruct (loading w); simplify_eq.
    unfold one_in_flight; simpl.
    by destruct c, m.
  - destruct (App.isAuthenticated _); simplify_eq.
    unfold one_in_flight; simpl. done.
  - destruct (App.isAuthenticated _); simplify_eq.
    unfold one_in_flight; simpl. done.
  - destruct (App.isAuthenticated _); [discriminate|].
    destruct (AuthService.login _ _ _) as [[a ls] [data|err]];
      simplify_eq; exact Hinv.
Qed.

(** C5.  At any point of any run at most one post to
    [/api/create-parcel] is awaiting its answer, and [isLoading] is set
    exactly while one is.  While it is set neither the form nor the
    clarifying card accepts a submission, and no event sends a request or
    stores one for later. *)
Theorem at_most_one_submission_in_flight :
  forall (ls : SharedPref.Storage) (es : list Event) (w : World),
    run (mount ls) es = Some w ->
    (length (pending w) <= 1)%nat
    /\ (App.isLoading (app w) = true <-> pending w <> [])
    /\ (App.isLoading (app w) = true ->
        step w SubmitForm = None
        /\ step w SubmitClarifying = None
        /\ forall e w', step w e = Some w' ->
             (length (pending w') <= length (pending w))%nat).
Proof.
  intros ls es w Hrun.
  assert (one_in_flight w) as Hinv.
  { eapply (run_invariant one_in_flight); [|apply mount_one_in_flight|exact Hrun].
    intros; by eapply step_one_in_flight. }
  pose proof Hinv as (Hlen & Hload & Hres).
  split; [exact Hlen|]. split; [exact Hload|].
  intros Hl. split; [|split].
  - simpl. unfold ParcelForm.canSubmit, ParcelForm.submitDisabled.
    rewrite Hl, orb_true_r. simpl. by rewrite andb_false_r.
  - simpl. unfold clarifyingShown. rewrite (Hres Hl). simpl.
    by rewrite andb_false_r.
  - intros e w' Hstep.
    pose proof (step_one_in_flight _ _ _ Hinv Hstep) as (Hlen' & _ & _).
    assert (pending w <> []) as Hne by by apply Hload.
    destruct (pending w); [done|]. simpl in *. lia.
Qed.

Lemma at_most_one_submission_in_flight_witness :
  length (pending Examples.answerSent) = 1%nat
  /\ step Examples.answerSent SubmitForm = None
  /\ step Examples.answerSent SubmitClarifying = None.
Proof.
  destruct (at_most_one_submission_in_flight Examples.loggedIn
              Examples.twoTurns Examples.answerSent)
    as (_ & _ & H).
  - vm_compute. reflexivity.
  - destruct (H eq_refl) as (Hf & Hc & _).
    split; [reflexivity|]. split; [exact Hf|exact Hc].
Defined.

(** Only the answer to [loadData] writes the two lists. *)
Lemma step_catalog (w : World) (e : Event) (w' : World) :
  step w e = Some w' -> isLoadSettles e = false -> catalog w' = catalog w.
Proof.
  intros Hstep He. unfold catalog.
  destruct e; simpl in Hstep; try discriminate He.
  - destruct (_ && _); by simplify_eq.
  - destruct (_ && _); by simplify_eq.
  - destruct (App.isAuthenticated _); by simplify_eq.
  - destruct (_ && _); by simplify_eq.
  - destruct (_ && _); [|discriminate].
    destruct (ParcelForm.handleSubmit _); by simplify_eq.
  - destruct (_ && _); by simplify_eq.
  - destruct (_ && _); [|discriminate].
    destruct (ParcelResult.handleClarifyingSubmit _); by simplify_eq.
  - destruct (pending w !! i); simplify_eq. simpl.
    destruct o as [data|detail]; simpl; [|reflexivity].
    by destruct (ParcelResult.success data).
  - destruct (App.isAuthenticated _); by simplify_eq.
  - destruct (App.isAuthenticated _); by simplify_eq.
  - destruct (App.isAuthenticated _); [discriminate|].
    destruct (AuthService.login _ _ _) as [[a ls] [data|err]];
      by simplify_eq.
Qed.

Lemma run_catalog (es : list Event) (w w' : World) :
  run w es = Some w' -> forallb (fun e => negb (isLoadSettles e)) es = true ->
  catalog w' = catalog w.
Proof.
  revert w. induction es as [|e es IH]; intros w; simpl.
  - by intros [= <-].
  - destruct (step w e) as [w1|] eqn:He; [|discriminate].
    intros Hrun [Hne Hes]%andb_true_iff.
    rewrite (IH _ Hrun Hes). eapply step_catalog; [exact He|].
    by apply negb_true_iff.
Qed.

(** C4, as the claim states it, fails.  The names the fallback stores are
    lower-case, and the lists do not stay after a failed lookup: the
    lookup of an earlier login is not cancelled by the logout, and when it
    is answered after the lookup of the present login has failed, its
    names replace the built-in ones. *)
Lemma stale_lookup_replaces_fallback :
  App.fallbackCities <> [lit "Jaipur"; lit "Kolkata"]
  /\ (catalog <$> run (mount ∅) (take 4 Examples.staleLookup))
     = Some ([lit "jaipur"; lit "kolkata"], [lit "paint"; lit "chemicals"])
  /\ ((fun w => (App.isAuthenticated (app w), catalog w)) <$>
        run (mount ∅) Examples.staleLookup)
     = Some (true, ([lit "delhi"], [lit "steel"])).
Proof.
  split; [discriminate|]. split; vm_compute; reflexivity.
Qed.

(** C4, amended.  When either of the two lookups of [loadData] fails, the
    lists the form works with are the built-in ones, stored as [jaipur],
    [kolkata] and [paint], [chemicals] and offered under the labels
    Jaipur, Kolkata and Paint, Chemicals; they stay so through every later
    event until another [loadData] is answered. *)
Theorem catalog_falls_back_to_builtin_names :
  forall (w : World) (c m : App.GetOutcome) (w' : World)
         (es : list Event) (w'' : World),
    step w (LoadSettles c m) = Some w' ->
    c = App.GetFails \/ m = App.GetFails ->
    run w' es = Some w'' ->
    forallb (fun e => negb (isLoadSettles e)) es = true ->
    catalog w'' = ([lit "jaipur"; lit "kolkata"], [lit "paint"; lit "chemicals"])
    /\ catalogLabels w''
       = (Some [lit "Jaipur"; lit "Kolkata"],
          Some [lit "Paint"; lit "Chemicals"]).
Proof.
  intros w c m w' es w'' Hstep Hfail Hrun Hes.
  assert (catalog w' = (App.fallbackCities, App.fallbackMaterials)) as Hw'.
  { simpl in Hstep. destruct (loading w); simplify_eq.
    unfold catalog; simpl. destruct Hfail as [-> | ->]; [reflexivity|].
    by destruct c. }
  pose proof (run_catalog _ _ _ Hrun Hes) as Hkeep. rewrite Hw' in Hkeep.
  split; [exact Hkeep|].
  unfold catalog in Hkeep. unfold catalogLabels.
  injection Hkeep as -> ->. reflexivity.
Qed.

Lemma catalog_falls_back_to_builtin_names_witness :
  catalogLabels
    (default (mount Examples.loggedIn)
       (run (mount Examples.loggedIn) Examples.lookupFails))
  = (Some [lit "Jaipur"; lit "Kolkata"], Some [lit "Paint"; lit "Chemicals"]).
Proof.
  eapply (catalog_falls_back_to_builtin_names (mount Examples.loggedIn)
            (App.GetData (Some [lit "delhi"])) App.GetFails _
            (tail Examples.lookupFails)).
  - reflexivity.
  - right. reflexivity.
  - vm_compute. reflexivity.
  - reflexivity.
Defined.

Lemma mount_token_in_sync (ls : SharedPref.Storage) :
  token_in_sync (mount ls).
Proof.
  unfold token_in_sync, mount, AuthService.isAuthenticated,
    AuthService.constructor, SharedPref.token; simpl.
  destruct (ls !! "authToken"%string) as [t|]; simpl.
  - destruct t as [|c t]; simpl.
    + split; [discriminate|]. by intros (t' & [= <-] & Hne).
    + split; [|reflexivity]. intros _. by exists (c :: t).
  - split; [discriminate|]. by intros (t' & [=] & _).
Qed.

Lemma step_token_in_sync (w : World) (e : Event) (w' : World) :
  token_in_sync w -> step w e = Some w' -> token_in_sync w'.
Proof.
  intros Hinv Hstep. unfold token_in_sync in *.
  destruct e; simpl in Hstep.
  - destruct (_ && _); by simplify_eq.
  - destruct (_ && _); by simplify_eq.
  - destruct (App.isAuthenticated _); by simplify_eq.
  - destruct (_ && _); by simplify_eq.
  - destruct (_ && _); [|discriminate].
    destruct (ParcelForm.handleSubmit _); by simplify_eq.
  - destruct (_ && _); by simplify_eq.
  - destruct (_ && _); [|discriminate].
    destruct (ParcelResult.handleClarifyingSubmit _); by simplify_eq.
  - destruct (pending w !! i); by simplify_eq.
  - destruct (loading w); by simplify_eq.
  - destruct (App.isAuthenticated _); by simplify_eq.
  - destruct (App.isAuthenticated _); simplify_eq. simpl.
    unfold SharedPref.clear.
    rewrite lookup_delete_ne, lookup_delete_eq by done.
    split; [discriminate|]. by intros (t & [=] & _).
  - destruct (App.isAuthenticated _); [discriminate|].
    unfold AuthService.login in Hstep.
    destruct o as [| |data]; simplify_eq; try exact Hinv.
    destruct (AuthService.data_token data) as [t|]; simplify_eq;
      [|exact Hinv].
    destruct (AuthService.ok data && truthy t) eqn:Hok; simplify_eq;
      [|exact Hinv].
    apply andb_true_iff in Hok as [_ Ht]. simpl.
    unfold SharedPref.set_token. rewrite Ht.
    assert (forall ur, SharedPref.set_userData ur
              (<["authToken"%string := t]> (storage w))
              !! "authToken"%string = Some t) as ->.
    { intros [v|]; simpl; [destruct (SharedPref.falsyRecord v)|].
      - by rewrite lookup_delete_ne, lookup_insert_eq.
      - by rewrite lookup_insert_ne, lookup_insert_eq.
      - by rewrite lookup_delete_ne, lookup_insert_eq. }
    split; [|exact (fun _ => Ht)]. intros _. exists t.
    split; [reflexivity|]. by destruct t.
Qed.

(** C8.  At any point of any run [isAuthenticated()] answers [true]
    exactly when [localStorage] holds a non-empty [authToken].  With no
    token stored, [SharedPref.token] is the empty string, the session
    that starts is not authenticated, and [getApiHeaders] has an
    [Authorization] entry whose value is the empty string. *)
Theorem isAuthenticated_iff_token_stored :
  (forall (ls : SharedPref.Storage) (es : list Event) (w : World),
      run (mount ls) es = Some w ->
      (AuthService.isAuthenticated (auth w) = true <->
       exists t, storage w !! "authToken"%string = Some t /\ t <> []))
  /\ (forall ls : SharedPref.Storage,
        ls !! "authToken"%string = None ->
        SharedPref.token ls = []
        /\ AuthService.isAuthenticated (AuthService.constructor ls) = false
        /\ App.isAuthenticated (app (mount ls)) = false
        /\ SharedPref.getApiHeaders ls !! "Authorization"%string = Some []).
Proof.
  split.
  - intros ls es w Hrun.
    eapply (run_invariant token_in_sync);
      [|apply mount_token_in_sync|exact Hrun].
    intros; by eapply step_token_in_sync.
  - intros ls Hnone.
    assert (SharedPref.token ls = []) as Ht.
    { unfold SharedPref.token. by rewrite Hnone. }
    split; [exact Ht|].
    unfold mount, AuthService.constructor, AuthService.isAuthenticated,
      SharedPref.getApiHeaders; simpl.
    rewrite Ht. simpl. split; [reflexivity|]. split; [reflexivity|].
    apply lookup_insert_eq.
Qed.

Lemma isAuthenticated_iff_token_stored_witness :
  (AuthService.isAuthenticated
     (auth (default (mount ∅) (run (mount ∅) [Examples.signIn]))) = true)
  /\ SharedPref.getApiHeaders ∅ !! "Authorization"%string = Some [].
Proof.
  destruct isAuthenticated_iff_token_stored as [Hinv Hfresh].
  assert (run (mount ∅) [Examples.signIn]
          = Some (default (mount ∅) (run (mount ∅) [Examples.signIn])))
    as Hrun by (vm_compute; reflexivity).
  split.
  - apply (proj2 (Hinv _ _ _ Hrun)). exists (lit "tok-1").
    split; [vm_compute; reflexivity|discriminate].
  - apply Hfresh. reflexivity.
Defined.

End ClientProperties.

(** ** The weight control *)

Section WeightProperties.

Import Html.
Local Open Scope Q_scope.

Lemma is_integer_spec (q : Q) :
  is_integer q = true <-> exists k : Z, q == inject_Z k.
Proof.
  unfold is_integer, Qeq, inject_Z. destruct q as [n d]; simpl.
  rewrite Z.eqb_eq. split.
  - intros H. exists (n / Z.pos d)%Z.
    rewrite Z.mul_1_r. apply Z.div_exact in H; lia.
  - intros [k H]. rewrite Z.mul_1_r in H. subst n. apply Z.mod_mul. lia.
Qed.

(** With [min="1"] and the default step, the value passes when it is a
    whole number from 1 up. *)
Lemma weightInput_passes (v : Q) :
  negb (rangeUnderflow ParcelForm.weightInput v)
  && negb (stepMismatch ParcelForm.weightInput v) = true
  <-> exists k : Z, (1 <= k)%Z /\ v == inject_Z k.
Proof.
  unfold rangeUnderflow, stepMismatch; simpl.
  rewrite !negb_involutive, andb_true_iff, Qle_bool_iff, is_integer_spec.
  split.
  - intros [Hle [k Hk]]. exists (k + 1)%Z.
    assert (v == inject_Z (k + 1)) as Hv.
    { rewrite inject_Z_plus. rewrite <- Hk. field. }
    split; [|exact Hv].
    rewrite Hv in Hle. rewrite Zle_Qle. exact Hle.
  - intros [k [Hk Hv]]. split.
    + rewrite Hv. change (inject_Z 1 <= inject_Z k).
      rewrite <- Zle_Qle. exact Hk.
    + exists (k - 1)%Z. rewrite Hv. unfold Zminus.
      rewrite inject_Z_plus, inject_Z_opp. field.
Qed.

Lemma valid_weightInput (w : jsstring) :
  valid ParcelForm.weightInput w = true <->
  exists q, parseNumber w = Some q
            /\ negb (rangeUnderflow ParcelForm.weightInput q)
               && negb (stepMismatch ParcelForm.weightInput q) = true.
Proof.
  unfold valid. destruct w as [|c w].
  - simpl. split; [discriminate|]. intros [q [H _]]. discriminate H.
  - destruct (parseNumber (c :: w)) as [v|].
    + split; [eauto|]. by intros [q [[= <-] H]].
    + split; [discriminate|]. intros [q [H _]]. discriminate H.
Qed.

Lemma roundHalfEven_nonneg (p r : Z) :
  (0 <= p)%Z -> (0 < r)%Z -> (0 <= roundHalfEven p r)%Z.
Proof.
  intros Hp Hr. unfold roundHalfEven.
  pose proof (Z.div_pos p r Hp Hr).
  destruct (2 * (p mod r) ?= r)%Z; [destruct (Z.even (p / r))| |]; lia.
Qed.

(** A division that comes out even is not rounded. *)
Lemma roundHalfEven_exact (a r : Z) :
  (0 < r)%Z -> roundHalfEven (a * r) r = a.
Proof.
  intros Hr. unfold roundHalfEven.
  rewrite Z.mod_mul, Z.div_mul by lia.
  assert ((2 * 0 ?= r)%Z = Lt) as -> by (apply Z.compare_lt_iff; lia).
  reflexivity.
Qed.

(** The double read from a number that is not above 0 is not above 0. *)
Lemma toDouble_nonpos (q v : Q) :
  q <= 0 -> toDouble q = Some v -> v <= 0.
Proof.
  intros Hq. unfold toDouble.
  destruct (Z.abs (Qnum q) =? 0)%Z eqn:Hz.
  { intros [= <-]. apply Qle_refl. }
  apply Z.eqb_neq in Hz.
  assert (Qnum q < 0)%Z as Hneg.
  { unfold Qle in Hq. simpl in Hq. lia. }
  apply Z.ltb_lt in Hneg. rewrite Hneg.
  set (qe := (Z.max (floorLog2 (Z.abs (Qnum q)) (Z.pos (Qden q))) (-1022) - 52)%Z).
  destruct (0 <=? qe)%Z eqn:Hqe.
  - apply Z.leb_le in Hqe.
    set (m := roundHalfEven _ _).
    assert (0 <= m)%Z as Hm.
    { apply roundHalfEven_nonneg; [lia|].
      apply Z.mul_pos_pos; [lia|]. apply Z.pow_pos_nonneg; lia. }
    destruct (Qle_bool _ _); [discriminate|]. intros [= <-].
    rewrite Qred_correct. unfold Qle, Qopp, inject_Z; simpl.
    pose proof (Z.pow_nonneg 2 qe ltac:(lia)). nia.
  - set (m := roundHalfEven _ _).
    assert (0 <= m)%Z as Hm.
    { apply roundHalfEven_nonneg; [|lia].
      apply Z.mul_nonneg_nonneg; [lia|]. apply Z.pow_nonneg. lia. }
    destruct (Qle_bool _ _); [discriminate|]. intros [= <-].
    rewrite Qred_correct. unfold Qle, Qopp; simpl. lia.
Qed.

Lemma floorLog2_le (k d : Z) :
  (1 <= k)%Z -> (0 < d)%Z -> (floorLog2 (k * d) d <= Z.log2 k)%Z.
Proof.
  intros Hk Hd. unfold floorLog2.
  pose proof (Z.log2_mul_above k d ltac:(lia) ltac:(lia)) as Habove.
  pose proof (Z.log2_nonneg k) as Hnn.
  set (e0 := (Z.log2 (k * d) - Z.log2 d)%Z) in *.
  destruct (0 <=? e0)%Z eqn:He0.
  - apply Z.leb_le in He0.
    destruct (k * d <? d * 2 ^ e0)%Z eqn:Hb; [lia|].
    apply Z.ltb_ge in Hb. apply Z.log2_le_pow2; [lia|]. nia.
  - apply Z.leb_gt in He0.
    destruct (_ <? _)%Z; lia.
Qed.

(** A whole number from 1 to [2 ^ 53] is a double: it is read as it is. *)
Lemma toDouble_integer (q : Q) (k : Z) :
  q == inject_Z k -> (1 <= k <= 2 ^ 53)%Z ->
  exists v, toDouble q = Some v /\ v == inject_Z k.
Proof.
  intros Hq [Hk1 Hk2]. destruct q as [n d].
  assert (n = k * Z.pos d)%Z as ->
    by (unfold Qeq in Hq; simpl in Hq; lia).
  clear Hq. unfold toDouble; cbn [Qnum Qden].
  assert (0 < k * Z.pos d)%Z as Hpos by lia.
  rewrite (Z.abs_eq (k * Z.pos d)) by lia.
  destruct (k * Z.pos d =? 0)%Z eqn:Hz; [apply Z.eqb_eq in Hz; lia|].
  destruct (k * Z.pos d <? 0)%Z eqn:Hs; [apply Z.ltb_lt in Hs; lia|].
  pose proof (floorLog2_le k (Z.pos d) Hk1 ltac:(lia)) as He.
  assert (Z.log2 k <= 53)%Z as Hlog.
  { change 53%Z with (Z.log2 (2 ^ 53)). by apply Z.log2_le_mono. }
  assert (forall v0 : Q, v0 == inject_Z k ->
            exists v,
              (if Qle_bool (inject_Z (2 ^ 1024)) v0 then None
               else Some (Qred v0)) = Some v
              /\ v == inject_Z k) as Hfinish.
  { intros v0 Hv0.
    destruct (Qle_bool (inject_Z (2 ^ 1024)) v0) eqn:Hover.
    - apply Qle_bool_iff in Hover. rewrite Hv0 in Hover.
      rewrite <- Zle_Qle in Hover.
      assert (2 ^ 53 < 2 ^ 1024)%Z by (apply Z.pow_lt_mono_r; lia). lia.
    - eexists. split; [reflexivity|]. by rewrite Qred_correct. }
  set (e := floorLog2 (k * Z.pos d) (Z.pos d)) in *.
  set (qe := (Z.max e (-1022) - 52)%Z).
  destruct (0 <=? qe)%Z eqn:Hqe.
  - apply Z.leb_le in Hqe. apply Hfinish.
    assert (qe = 0 \/ qe = 1)%Z as [H0|H1] by lia.
    + rewrite H0, Z.pow_0_r, !Z.mul_1_r.
      by rewrite roundHalfEven_exact by lia.
    + assert (53 <= Z.log2 k)%Z as Hge by lia.
      rewrite H1. apply Z.log2_le_pow2 in Hge; [|lia].
      assert (k = 2 ^ 53)%Z as -> by lia.
      replace (2 ^ 53 * Z.pos d)%Z with (2 ^ 52 * (Z.pos d * 2 ^ 1))%Z
        by (change (2 ^ 53)%Z with (2 ^ 52 * 2)%Z;
            change (2 ^ 1)%Z with 2%Z; lia).
      rewrite roundHalfEven_exact by lia. reflexivity.
  - apply Z.leb_gt in Hqe. apply Hfinish.
    assert (0 < 2 ^ (- qe))%Z as Hp by (apply Z.pow_pos_nonneg; lia).
    replace (k * Z.pos d * 2 ^ (- qe))%Z
      with (k * 2 ^ (- qe) * Z.pos d)%Z by lia.
    rewrite roundHalfEven_exact by lia.
    unfold Qeq, inject_Z; simpl. rewrite Z2Pos.id by exact Hp. lia.
Qed.

(** C7, as the claim states it, fails: half a kilogram is a number above
    0, and the control refuses it. *)
Lemma half_kilogram_refused :
  ~ (valid ParcelForm.weightInput (lit "0.5") = true <->
     exists q, parseNumber (lit "0.5") = Some q /\ 0 < q).
Proof.
  intros [_ H]. assert (valid ParcelForm.weightInput (lit "0.5") = true) as E.
  { apply H. exists (1 # 2). split; reflexivity. }
  discriminate E.
Qed.

(** C7, amended.  The weight control accepts a text exactly when the
    number it reads from it (the text's value as a double) is whole and at
    least 1 ([min="1"], default step); a text from which it reads no
    number and one from which it reads a number that is not above 0 are
    refused, and the quick form is submitted only with an accepted
    weight.  In terms of the text itself: a text that is not a number and
    one whose value is not above 0 are refused, and a text whose value is
    a whole number from 1 to [2 ^ 53] is accepted. *)
Theorem weight_accepted_iff_whole_number_from_one :
  (forall w : jsstring,
      valid ParcelForm.weightInput w = true <->
      exists (k : Z) (q : Q),
        (1 <= k)%Z /\ parseNumber w = Some q /\ q == inject_Z k)
  /\ (forall w : jsstring,
        parseNumber w = None -> valid ParcelForm.weightInput w = false)
  /\ (forall (w : jsstring) (q : Q),
        parseNumber w = Some q -> q <= 0 ->
        valid ParcelForm.weightInput w = false)
  /\ (forall (isLoading : bool) (f : ParcelForm.State),
        ParcelForm.useQuickForm f = true ->
        ParcelForm.canSubmit isLoading f = true ->
        valid ParcelForm.weightInput
          (ParcelForm.weight (ParcelForm.quickFormData f)) = true)
  /\ (forall w : jsstring,
        parseDecimal w = None -> valid ParcelForm.weightInput w = false)
  /\ (forall (w : jsstring) (q : Q),
        parseDecimal w = Some q -> q <= 0 ->
        valid ParcelForm.weightInput w = false)
  /\ (forall (w : jsstring) (q : Q) (k : Z),
        parseDecimal w = Some q -> q == inject_Z k ->
        (1 <= k <= 2 ^ 53)%Z ->
        valid ParcelForm.weightInput w = true).
Proof.
  assert (forall w, valid ParcelForm.weightInput w = true <->
            exists (k : Z) (q : Q),
              (1 <= k)%Z /\ parseNumber w = Some q /\ q == inject_Z k) as Hiff.
  { intros w. rewrite valid_weightInput. split.
    - intros (q & Hq & Hok). apply weightInput_passes in Hok as (k & Hk & Hv).
      by exists k, q.
    - intros (k & q & Hk & Hq & Hv). exists q. split; [exact Hq|].
      apply weightInput_passes. by exists k. }
  assert (forall w, parseNumber w = None ->
            valid ParcelForm.weightInput w = false) as Hnone.
  { intros w Hnone. apply not_true_is_false. intros Hv.
    apply Hiff in Hv as (k & q & _ & Hq & _). congruence. }
  assert (forall w q, parseNumber w = Some q -> q <= 0 ->
            valid ParcelForm.weightInput w = false) as Hnonpos.
  { intros w q Hq Hle. apply not_true_is_false. intros Hv.
    apply Hiff in Hv as (k & q' & Hk & Hq' & Hv).
    assert (q' = q) as -> by congruence.
    rewrite Hv in Hle. change (inject_Z k <= inject_Z 0) in Hle.
    rewrite <- Zle_Qle in Hle. lia. }
  split; [exact Hiff|]. split; [exact Hnone|]. split; [exact Hnonpos|].
  split; [|split; [|split]].
  - intros isLoading f Hquick Hc. unfold ParcelForm.canSubmit in Hc.
    apply andb_true_iff in Hc as [_ Hc].
    unfold ParcelForm.checkValidity in Hc. rewrite Hquick in Hc.
    rewrite !andb_true_iff in Hc. tauto.
  - intros w Hd. apply Hnone. unfold parseNumber. by rewrite Hd.
  - intros w q Hd Hle.
    destruct (parseNumber w) as [v|] eqn:Hv; [|by apply Hnone].
    apply (Hnonpos w v Hv). unfold parseNumber in Hv. rewrite Hd in Hv.
    by apply (toDouble_nonpos q).
  - intros w q k Hd Hq Hk.
    destruct (toDouble_integer q k Hq Hk) as (v & Hv & Hvk).
    apply Hiff. exists k, v. split; [lia|]. split; [|exact Hvk].
    unfold parseNumber. by rewrite Hd.
Qed.

Lemma weight_accepted_iff_whole_number_from_one_witness :
  valid ParcelForm.weightInput (lit "50") = true
  /\ valid ParcelForm.weightInput (lit "fifty") = false
  /\ valid ParcelForm.weightInput (lit "-3") = false
  /\ valid ParcelForm.weightInput (lit "1e400") = false
  /\ valid ParcelForm.weightInput (lit "1.0000000000000000001") = true.
Proof.
  destruct weight_accepted_iff_whole_number_from_one
    as (Hiff & Hnone & Hle & _).
  split_and!.
  - apply Hiff. exists 50%Z, (50 # 1). repeat split. lia.
  - apply Hnone. reflexivity.
  - apply (Hle _ (-3 # 1)); [reflexivity|discriminate].
  - apply Hnone. vm_compute. reflexivity.
  - apply Hiff. exists 1%Z, (1 # 1). repeat split. lia.
Defined.

End WeightProperties.

(** ** The Completeness Validator *)

Section ValidatorProperties.

Import Core.

Lemma get_set_eq (f : Field) (v : FieldValue) (es : EntitySet) :
  get f (set f v es) = v.
Proof. by destruct f. Qed.

Lemma get_set_ne (f g : Field) (v : FieldValue) (es : EntitySet) :
  f <> g -> get g (set f v es) = get g es.
Proof. by destruct f, g. Qed.

(** An Entity Set is its five field values. *)
Lemma entity_set_ext (es1 es2 : EntitySet) :
  (forall f, get f es1 = get f es2) -> es1 = es2.
Proof.
  intros H. destruct es1, es2.
  pose proof (H Company). pose proof (H OriginCity).
  pose proof (H DestinationCity). pose proof (H WeightKg).
  pose proof (H Material). simpl in *. congruence.
Qed.

Lemma required_all (f : Field) : f ∈ requiredFields.
Proof. unfold requiredFields. destruct f; set_solver. Qed.

(** The entries keep the order of the fields they are drawn from. *)
Lemma outstandingIn_sublist (fs : list Field) (es : EntitySet) :
  sublist (outstandingIn fs es).*1 fs.
Proof.
  induction fs as [|f fs IH]; simpl; [constructor|].
  unfold outstandingIn in *. simpl.
  destruct (reasonOf (get f es)); simpl; by constructor.
Qed.

Lemma elem_of_outstandingIn (fs : list Field) (es : EntitySet)
    (f : Field) (r : Reason) :
  (f, r) ∈ outstandingIn fs es <-> f ∈ fs /\ reasonOf (get f es) = Some r.
Proof.
  unfold outstandingIn. rewrite list_elem_of_omap. split.
  - intros (g & Hg & Hr). destruct (reasonOf (get g es)) eqn:E; simplify_eq.
    by simpl in Hr; simplify_eq.
  - intros [Hf Hr]. exists f. by rewrite Hr.
Qed.

(** What a list of findings with distinct fields leaves in each field. *)
Lemma get_foldl_findings (findings : list (Field * FieldValue))
    (init : EntitySet) (f : Field) :
  NoDup findings.*1 ->
  (forall v, (f, v) ∈ findings ->
     get f (foldl (fun es fv => set fv.1 fv.2 es) init findings) = v)
  /\ (f ∉ findings.*1 ->
     get f (foldl (fun es fv => set fv.1 fv.2 es) init findings)
     = get f init).
Proof.
  revert init. induction findings as [|[g w] l IH]; intros init Hnd.
  - split; [by intros v H%elem_of_nil|reflexivity].
  - apply NoDup_cons in Hnd as [Hg Hnd]. simpl in Hg.
    destruct (IH (set g w init) Hnd) as [IHin IHout]. simpl. split.
    + intros v [H|H]%elem_of_cons.
      * simplify_eq. rewrite IHout by exact Hg. apply get_set_eq.
      * by apply IHin.
    + intros [Hne Hout]%not_elem_of_cons.
      rewrite IHout by exact Hout. apply get_set_ne. congruence.
Qed.

(** The candidate of a turn does not depend on the order in which its
    fields were found. *)
Lemma candidate_perm (findings1 findings2 : list (Field * FieldValue)) :
  NoDup findings1.*1 -> findings1 ≡ₚ findings2 ->
  candidate findings1 = candidate findings2.
Proof.
  intros Hnd1 Hperm.
  assert (NoDup findings2.*1) as Hnd2 by by rewrite <- Hperm.
  apply entity_set_ext. intros f. unfold candidate.
  destruct (get_foldl_findings findings1 empty f Hnd1) as [Hin1 Hout1].
  destruct (get_foldl_findings findings2 empty f Hnd2) as [Hin2 Hout2].
  destruct (decide (f ∈ findings1.*1)) as [Hf|Hf].
  - apply list_elem_of_fmap in Hf as ([g v] & Hfg & Hgv).
    simpl in Hfg. subst g.
    rewrite (Hin1 v Hgv). symmetry. apply Hin2. by rewrite <- Hperm.
  - rewrite (Hout1 Hf). symmetry. apply Hout2. by rewrite <- Hperm.
Qed.

(** C6.  The verdict is a function of the five field values alone.  When
    it is [Incomplete], the list is not empty, its fields form a
    subsequence of company, originCity, destinationCity, weightKg,
    material, and it has an entry for exactly the fields that are not
    [stated], with the reason of each; when it is [Complete] every field
    is [stated].  Merging a turn's findings in a different order gives
    the same verdict. *)
Theorem validate_order_fixed :
  (forall es1 es2 : EntitySet,
      (forall f, get f es1 = get f es2) -> validate es1 = validate es2)
  /\ (forall es : EntitySet,
       match validate es with
       | Complete => forall f, exists v, get f es = Stated v
       | Incomplete l =>
           l <> []
           /\ sublist l.*1
                [Company; OriginCity; DestinationCity; WeightKg; Material]
           /\ forall f r, (f, r) ∈ l <-> reasonOf (get f es) = Some r
       end)
  /\ (forall (prior : EntitySet) (findings1 findings2 : list (Field * FieldValue)),
       NoDup findings1.*1 -> findings1 ≡ₚ findings2 ->
       validate (merge prior (candidate findings1))
       = validate (merge prior (candidate findings2))).
Proof.
  split; [|split].
  - intros es1 es2 H. by rewrite (entity_set_ext es1 es2 H).
  - intros es. unfold validate.
    pose proof (outstandingIn_sublist requiredFields es) as Hsub.
    pose proof (elem_of_outstandingIn requiredFields es) as Hin.
    destruct (outstandingIn requiredFields es) as [|e l] eqn:E.
    + intros f. destruct (get f es) as [|v|t] eqn:Hf; [|by eauto|].
      * assert ((f, Missing) ∈ @nil (Field * Reason)) as H%elem_of_nil;
          [|done].
        apply Hin. split; [apply required_all|]. by rewrite Hf.
      * assert ((f, InvalidText t) ∈ @nil (Field * Reason)) as H%elem_of_nil;
          [|done].
        apply Hin. split; [apply required_all|]. by rewrite Hf.
    + split; [done|]. split; [exact Hsub|].
      intros f r. rewrite Hin. split; [by intros [_ H]|].
      intros H. split; [apply required_all|exact H].
  - intros prior findings1 findings2 Hnd Hperm.
    by rewrite (candidate_perm findings1 findings2 Hnd Hperm).
Qed.

Lemma validate_order_fixed_witness :
  validate
    (merge empty
       (candidate [(Material, Stated (lit "paint"));
                   (OriginCity, Invalid (lit "Jaypur"))]))
  = Incomplete
      [(Company, Missing); (OriginCity, InvalidText (lit "Jaypur"));
       (DestinationCity, Missing); (WeightKg, Missing)].
Proof.
  destruct validate_order_fixed as (_ & _ & Hperm).
  rewrite (Hperm empty
             [(Material, Stated (lit "paint"));
              (OriginCity, Invalid (lit "Jaypur"))]
             [(OriginCity, Invalid (lit "Jaypur"));
              (Material, Stated (lit "paint"))]).
  - reflexivity.
  - apply (bool_decide_unpack _). reflexivity.
  - apply Permutation_swap.
Defined.

End ValidatorProperties.

(** * Further properties of the sources *)

(** ** SharedPref and AuthService *)

Section StorageProperties.

Lemma token_lookup (ls : SharedPref.Storage) (t : jsstring) :
  t <> [] ->
  ls !! "authToken"%string = Some t -> SharedPref.token ls = t.
Proof.
  intros Hne Hl. unfold SharedPref.token. rewrite Hl.
  by destruct t.
Qed.

Lemma token_clear (ls : SharedPref.Storage) :
  SharedPref.token (SharedPref.clear ls) = [].
Proof.
  unfold SharedPref.token, SharedPref.clear.
  by rewrite lookup_delete_ne, lookup_delete_eq.
Qed.

(** The token setter and getter are inverse to each other: reading after
    writing [value] gives [value], the empty string included (it removes
    the key, and a missing key reads as the empty string).  Writing the
    token touches no other key, so the stored user record is as before. *)
Theorem token_set_get :
  forall (value : jsstring) (ls : SharedPref.Storage),
    SharedPref.token (SharedPref.set_token value ls) = value
    /\ SharedPref.userData (SharedPref.set_token value ls)
       = SharedPref.userData ls
    /\ (forall k : string,
          k <> "authToken"%string ->
          SharedPref.set_token value ls !! k = ls !! k)
    /\ SharedPref.getApiHeaders (SharedPref.set_token value ls)
         !! "Authorization"%string = Some value.
Proof.
  intros value ls.
  assert (SharedPref.token (SharedPref.set_token value ls) = value) as Ht.
  { unfold SharedPref.token, SharedPref.set_token.
    destruct value as [|c r]; simpl.
    - by rewrite lookup_delete_eq.
    - by rewrite lookup_insert_eq. }
  assert (forall k : string, k <> "authToken"%string ->
            SharedPref.set_token value ls !! k = ls !! k) as Hk.
  { intros k Hne. unfold SharedPref.set_token.
    destruct (truthy value).
    - by rewrite lookup_insert_ne.
    - by rewrite lookup_delete_ne. }
  split; [exact Ht|]. split; [|split; [exact Hk|]].
  - unfold SharedPref.userData. by rewrite Hk.
  - unfold SharedPref.getApiHeaders. rewrite lookup_insert_eq. simpl.
    by rewrite Ht.
Qed.

Lemma token_set_get_witness :
  SharedPref.set_token (lit "tok-1") Examples.loggedIn !! "theme"%string
  = Examples.loggedIn !! "theme"%string.
Proof.
  destruct (token_set_get (lit "tok-1") Examples.loggedIn) as (_ & _ & H & _).
  apply H. discriminate.
Defined.

(** [clear] forgets the session and nothing else: afterwards the token
    reads as the empty string, there is no user record, the
    [Authorization] header is empty, every other key of the storage is as
    it was, and clearing again changes nothing. *)
Theorem clear_forgets_session_only :
  forall ls : SharedPref.Storage,
    SharedPref.token (SharedPref.clear ls) = []
    /\ SharedPref.userData (SharedPref.clear ls) = None
    /\ SharedPref.getApiHeaders (SharedPref.clear ls)
         !! "Authorization"%string = Some []
    /\ (forall k : string,
          k <> "authToken"%string -> k <> "userData"%string ->
          SharedPref.clear ls !! k = ls !! k)
    /\ SharedPref.clear (SharedPref.clear ls) = SharedPref.clear ls.
Proof.
  intros ls. split; [apply token_clear|]. split; [|split; [|split]].
  - unfold SharedPref.userData, SharedPref.clear.
    by rewrite lookup_delete_eq.
  - unfold SharedPref.getApiHeaders. rewrite lookup_insert_eq. simpl.
    by rewrite token_clear.
  - intros k H1 H2. unfold SharedPref.clear.
    by rewrite !lookup_delete_ne.
  - unfold SharedPref.clear. apply map_eq. intros k.
    destruct (decide (k = "userData"%string)) as [->|H2].
    { by rewrite !lookup_delete_eq. }
    destruct (decide (k = "authToken"%string)) as [->|H1].
    { rewrite !(lookup_delete_ne _ "userData"%string) by done.
      by rewrite !lookup_delete_eq. }
    by rewrite !lookup_delete_ne.
Qed.

Lemma clear_forgets_session_only_witness :
  SharedPref.clear (<["theme"%string := lit "dark"]> Examples.loggedIn)
    !! "theme"%string = Some (lit "dark").
Proof.
  destruct (clear_forgets_session_only
              (<["theme"%string := lit "dark"]> Examples.loggedIn))
    as (_ & _ & _ & H & _).
  rewrite H by discriminate. reflexivity.
Defined.

End StorageProperties.

Section AuthServiceProperties.

Import AuthService.

Lemma failureText_nonempty (data : LoginData) : failureText data <> [].
Proof.
  unfold failureText. destruct (statusText data) as [[|c e]|]; simpl; done.
Qed.

Lemma stored_after_login (t : jsstring) (u : option jsstring)
    (ls : SharedPref.Storage) :
  t <> [] ->
  SharedPref.token (SharedPref.set_userData u (SharedPref.set_token t ls)) = t
  /\ forall k : string,
       k <> "authToken"%string -> k <> "userData"%string ->
       SharedPref.set_userData u (SharedPref.set_token t ls) !! k = ls !! k.
Proof.
  intros Hne. split.
  - apply token_lookup; [exact Hne|].
    unfold SharedPref.set_token. destruct t as [|c t]; [done|]. simpl.
    destruct u as [v|]; simpl; [destruct (SharedPref.falsyRecord v)|].
    + by rewrite lookup_delete_ne, lookup_insert_eq.
    + by rewrite lookup_insert_ne, lookup_insert_eq.
    + by rewrite lookup_delete_ne, lookup_insert_eq.
  - intros k H1 H2. unfold SharedPref.set_token.
    destruct t as [|c t]; [done|]. simpl.
    destruct u as [v|]; simpl; [destruct (SharedPref.falsyRecord v)|].
    + by rewrite lookup_delete_ne, lookup_insert_ne.
    + by rewrite !lookup_insert_ne.
    + by rewrite lookup_delete_ne, lookup_insert_ne.
Qed.

(** [login] is all or nothing.  When it fails (an exception, a status
    outside 2xx, a body without [ok] or without a token) the singleton and
    the storage are untouched and the error text it returns is not empty.
    When it succeeds the body had [ok] and a non-empty token, the
    singleton holds that token and the body's user record, the storage
    reads back the same token, every key other than the two session keys
    is as before, and a page reloaded on that storage is authenticated. *)
Theorem login_all_or_nothing :
  forall (o : FetchOutcome) (a : State) (ls : SharedPref.Storage),
    match login o a ls with
    | (a', ls', LoginFailure err) => a' = a /\ ls' = ls /\ err <> []
    | (a', ls', LoginSuccess data) =>
        o = Body data /\ ok data = true
        /\ exists t,
             data_token data = Some t /\ t <> []
             /\ token a' = Some t
             /\ userData a' = user_record data
             /\ SharedPref.token ls' = t
             /\ isAuthenticated a' = true
             /\ isAuthenticated (constructor ls') = true
             /\ forall k : string,
                  k <> "authToken"%string -> k <> "userData"%string ->
                  ls' !! k = ls !! k
    end.
Proof.
  intros o a ls. unfold login.
  destruct o as [| |data]; try by repeat split.
  destruct (data_token data) as [t|] eqn:Ht;
    [|by repeat split; try apply failureText_nonempty].
  destruct (ok data && truthy t) eqn:Hok;
    [|by repeat split; try apply failureText_nonempty].
  apply andb_true_iff in Hok as [Hok Htr].
  assert (t <> []) as Hne by by destruct t.
  destruct (stored_after_login t (user_record data) ls Hne) as [Htok Hkeys].
  split; [reflexivity|]. split; [exact Hok|].
  exists t. split; [exact Ht|]. split; [exact Hne|].
  split; [reflexivity|]. split; [reflexivity|]. split; [exact Htok|].
  split; [exact Htr|]. split; [|exact Hkeys].
  unfold isAuthenticated, constructor; simpl. by rewrite Htok.
Qed.

Lemma login_all_or_nothing_witness :
  (login (Body {| ok := true; data_token := Some (lit "tok-2");
                  user_record := None; statusText := None |})
     (constructor Examples.loggedIn)
     (<["theme"%string := lit "dark"]> Examples.loggedIn)).1.2
    !! "theme"%string
  = Some (lit "dark").
Proof.
  pose proof (login_all_or_nothing
                (Body {| ok := true; data_token := Some (lit "tok-2");
                         user_record := None; statusText := None |})
                (constructor Examples.loggedIn)
                (<["theme"%string := lit "dark"]> Examples.loggedIn)) as H.
  simpl in H. destruct H as (_ & _ & t & _ & _ & _ & _ & _ & _ & _ & H).
  simpl. rewrite H by discriminate. reflexivity.
Defined.

(** [logout] ends the session for good: the singleton is not
    authenticated and has no user, the storage left behind is the old one
    without the two session keys, a page reloaded on it is not
    authenticated either, and the headers it would send have an empty
    [Authorization].  Logging out after a successful login leaves the
    storage as logging out before it would have. *)
Theorem logout_ends_session :
  forall (a : State) (ls : SharedPref.Storage),
    isAuthenticated (logout a ls).1 = false
    /\ getCurrentUser (logout a ls).1 = None
    /\ (logout a ls).2 = SharedPref.clear ls
    /\ isAuthenticated (constructor (logout a ls).2) = false
    /\ getCurrentUser (constructor (logout a ls).2) = None
    /\ getAuthHeaders (logout a ls).2 !! "Authorization"%string = Some []
    /\ forall (o : FetchOutcome),
         (logout (login o a ls).1.1 (login o a ls).1.2).2
         = SharedPref.clear ls.
Proof.
  intros a ls. simpl.
  destruct (clear_forgets_session_only ls) as (Ht & Hu & Hh & _ & _).
  split; [reflexivity|]. split; [reflexivity|]. split; [reflexivity|].
  split; [|split; [|split; [exact Hh|]]].
  - unfold isAuthenticated, constructor; simpl. by rewrite Ht.
  - unfold getCurrentUser, constructor; simpl. exact Hu.
  - intros o.
    pose proof (login_all_or_nothing o a ls) as H.
    destruct (login o a ls) as [[a' ls'] [data|err]]; simpl.
    + destruct H as (_ & _ & t & _ & Hne & _ & _ & Htok & _ & _ & Hkeys).
      unfold SharedPref.clear. apply map_eq. intros k.
      destruct (decide (k = "userData"%string)) as [->|H2].
      { by rewrite !lookup_delete_eq. }
      destruct (decide (k = "authToken"%string)) as [->|H1].
      { rewrite !(lookup_delete_ne _ "userData"%string) by done.
        by rewrite !lookup_delete_eq. }
      rewrite !lookup_delete_ne by done. by apply Hkeys.
    + by destruct H as (_ & -> & _).
Qed.

(** [makeAuthenticatedRequest]: a header given in [options] replaces the
    same header of the authentication set, and the others are kept, so
    without an [Authorization] of the caller's the stored token is sent.
    A 401 answer logs the user out and gives [null]: the storage loses the
    session and a reloaded page is not authenticated.  Any other answer is
    handed back and an exception is thrown on, both with the session as it
    was. *)
Theorem makeAuthenticatedRequest_behaviour :
  forall (a : State) (ls : SharedPref.Storage)
         (optionHeaders : SharedPref.Headers),
    (forall k : string,
        requestHeaders ls optionHeaders !! k
        = match optionHeaders !! k with
          | Some v => Some v
          | None => getAuthHeaders ls !! k
          end)
    /\ match optionHeaders !! "Authorization"%string with
       | Some v => requestHeaders ls optionHeaders !! "Authorization"%string
                   = Some v
       | None => requestHeaders ls optionHeaders !! "Authorization"%string
                 = Some (SharedPref.token ls)
       end
    /\ (exists a',
          makeAuthenticatedRequest (Some 401) a ls
          = (a', SharedPref.clear ls, ReturnedNull)
          /\ isAuthenticated a' = false
          /\ isAuthenticated (constructor (SharedPref.clear ls)) = false)
    /\ (forall status : N,
          status <> 401 ->
          makeAuthenticatedRequest (Some status) a ls
          = (a, ls, Returned status))
    /\ makeAuthenticatedRequest None a ls = (a, ls, Rethrown).
Proof.
  intros a ls optionHeaders.
  assert (forall k : string,
            requestHeaders ls optionHeaders !! k
            = match optionHeaders !! k with
              | Some v => Some v
              | None => getAuthHeaders ls !! k
              end) as Hk.
  { intros k. unfold requestHeaders. rewrite lookup_union.
    destruct (optionHeaders !! k), (getAuthHeaders ls !! k); reflexivity. }
  split; [exact Hk|]. split; [|split; [|split]].
  - rewrite Hk. destruct (optionHeaders !! "Authorization"%string);
      [reflexivity|].
    unfold getAuthHeaders, SharedPref.getApiHeaders.
    by rewrite lookup_insert_eq.
  - eexists. split; [reflexivity|]. split; [reflexivity|].
    unfold isAuthenticated, constructor; simpl. by rewrite token_clear.
  - intros status Hne. unfold makeAuthenticatedRequest.
    destruct (status =? 401) eqn:E; [|reflexivity].
    apply N.eqb_eq in E. contradiction.
  - reflexivity.
Qed.

Lemma makeAuthenticatedRequest_behaviour_witness :
  makeAuthenticatedRequest (Some 200) (constructor Examples.loggedIn)
    Examples.loggedIn
  = (constructor Examples.loggedIn, Examples.loggedIn, Returned 200).
Proof.
  destruct (makeAuthenticatedRequest_behaviour
              (constructor Examples.loggedIn) Examples.loggedIn ∅)
    as (_ & _ & _ & H & _).
  apply H. discriminate.
Defined.

End AuthServiceProperties.

(** ** ParcelResult: what the patterns capture *)

Section CaptureProperties.

Import ParcelResult.

Lemma takeWhile_split (cls : N -> bool) (s : jsstring) :
  exists rest,
    s = takeWhile cls s ++ rest
    /\ Forall (fun c => cls c = true) (takeWhile cls s)
    /\ (forall c, head rest = Some c -> cls c = false).
Proof.
  induction s as [|a s (rest & Hs & Hall & Hrest)]; simpl.
  - exists []. split; [reflexivity|]. split; [constructor|discriminate].
  - destruct (cls a) eqn:Ha.
    + exists rest. split; [simpl; f_equal; exact Hs|].
      split; [by constructor|exact Hrest].
    + exists (a :: s). split; [reflexivity|]. split; [constructor|].
      intros c [= <-]. exact Ha.
Qed.

Lemma match_here_Some_inv (literal : jsstring) (cls : N -> bool)
    (s cap : jsstring) :
  match_here literal cls s = Some cap ->
  exists rest,
    s = literal ++ cap ++ rest /\ cap <> []
    /\ Forall (fun c => cls c = true) cap
    /\ (forall c, head rest = Some c -> cls c = false).
Proof.
  unfold match_here. destruct (startsWith literal s) eqn:Hs; [|discriminate].
  apply startsWith_spec in Hs as [t ->]. rewrite drop_app_length.
  destruct (takeWhile_split cls t) as (rest & Ht & Hall & Hrest).
  destruct (takeWhile cls t) as [|c cap'] eqn:E; [discriminate|].
  intros [= <-]. exists rest. split; [by rewrite Ht at 1|].
  split; [done|]. split; [exact Hall|exact Hrest].
Qed.

Lemma search_Some_inv (literal : jsstring) (cls : N -> bool)
    (s cap : jsstring) :
  search literal cls s = Some cap -> carries literal cls s cap.
Proof.
  unfold carries. induction s as [|a s IH]; simpl.
  - destruct (match_here literal cls []) as [cap'|] eqn:Hm; [|discriminate].
    intros [= ->]. apply match_here_Some_inv in Hm as (rest & Hs & H).
    exists [], rest. split; [exact Hs|].
    destruct H as (H1 & H2 & H3). repeat split; try done.
    intros i Hi. simpl in Hi. lia.
  - destruct (match_here literal cls (a :: s)) as [cap'|] eqn:Hm.
    + intros [= ->]. apply match_here_Some_inv in Hm as (rest & Hs & H).
      exists [], rest. split; [exact Hs|].
      destruct H as (H1 & H2 & H3). repeat split; try done.
      intros i Hi. simpl in Hi. lia.
    + intros Hsearch.
      destruct (IH Hsearch) as (pre & rest & Hs & H1 & H2 & H3 & H4).
      exists (a :: pre), rest. split; [by rewrite Hs|].
      repeat split; try done.
      intros [|i] Hi; [exact Hm|]. simpl. apply H4. simpl in Hi. lia.
Qed.

(** [message.match(re)] for the two patterns, in full: the capture is
    [value] exactly when the message has the literal followed by [value],
    [value] is a non-empty run of the class that cannot be extended, and no
    match starts further left. *)
Theorem match_captures_leftmost_longest :
  forall message value : jsstring,
    (parcelIdMatch message = Some value <->
     carries parcelIdLiteral notNewline message value)
    /\ (costMatch message = Some value <->
        carries costLiteral digitOrComma message value).
Proof.
  intros message value. unfold parcelIdMatch, costMatch.
  split; (split; [apply search_Some_inv|apply carries_search]).
Qed.

(** Whatever the message, the cost on the card is a non-empty text of
    digits and commas, and the parcel ID is a non-empty text without a
    line break: a captured one by the pattern, the built-in one by
    inspection. *)
Theorem card_texts_well_formed :
  forall message : jsstring,
    cost message <> []
    /\ Forall (fun c => digitOrComma c = true) (cost message)
    /\ parcelId message <> []
    /\ Forall (fun c => notNewline c = true) (parcelId message).
Proof.
  intros message. unfold cost, parcelId, costMatch, parcelIdMatch.
  split; [|split; [|split]].
  - destruct (search costLiteral digitOrComma message) eqn:E; [|done].
    by apply search_Some_inv in E as (_ & _ & _ & H & _).
  - destruct (search costLiteral digitOrComma message) eqn:E.
    + by apply search_Some_inv in E as (_ & _ & _ & _ & H & _).
    + repeat constructor.
  - destruct (search parcelIdLiteral notNewline message) eqn:E; [|done].
    by apply search_Some_inv in E as (_ & _ & _ & H & _).
  - destruct (search parcelIdLiteral notNewline message) eqn:E.
    + by apply search_Some_inv in E as (_ & _ & _ & _ & H & _).
    + repeat constructor.
Qed.

(** The clarifying card answers only with real text: the answer handed to
    [onClarifyingResponse] is the trimmed input, not empty and without
    whitespace at either end, and an input of whitespace only is not
    sent.  The card's button is disabled exactly when the handler would
    send nothing. *)
Theorem clarifying_answer_trimmed :
  forall (input question : jsstring) (ok : bool) (info : option ParcelInfo),
    match handleClarifyingSubmit input with
    | Some u => u = trim input /\ u <> [] /\ trimmed u /\ ~ blank input
    | None => blank input
    end
    /\ render (Some {| success := ok; message := qmark :: question;
                       parcel_info := info |}) input
       = Clarifying (qmark :: question)
           (bool_decide (handleClarifyingSubmit input = None)).
Proof.
  intros input question ok info. unfold handleClarifyingSubmit. split.
  - destruct (truthy (trim input)) eqn:Ht.
    + split; [reflexivity|]. split; [|split].
      * intros E. by rewrite E in Ht.
      * apply trim_trimmed.
      * by apply truthy_trim.
    + by apply trim_nil, truthy_false.
  - assert (startsWith [qmark] (qmark :: question) = true) as Hq
      by apply (startsWith_app [qmark]).
    unfold render, isClarifyingQuestion. cbn [message]. rewrite Hq. f_equal.
    destruct (truthy (trim input)); reflexivity.
Qed.

End CaptureProperties.

(** ** App and the running client, further *)

Section AppProperties.

Import App Client.

(** A submission always ends with the page idle and showing one thing:
    either the answered body as the result and no error, or an error text
    that is not empty and no result.  What the page showed before the
    submission is gone in both cases, and the lists and the login are as
    before.  A rejected request shows its [detail] as it came when it has
    one that is not empty, and a fixed text otherwise. *)
Theorem submission_ends_in_result_or_error :
  forall (ls : SharedPref.Storage) (message : jsstring) (o : PostOutcome)
         (st : State) (ci : jsstring),
    let st' := submitted ls message o st in
    isLoading st' = false
    /\ isAuthenticated st' = isAuthenticated st
    /\ cities st' = cities st /\ materials st' = materials st
    /\ ((exists data,
           o = Resolved data /\ ParcelResult.success data = true
           /\ result st' = Some data /\ error st' = None
           /\ (page st' ci).1 = None
           /\ (page st' ci).2 <> ParcelResult.Nothing)
        \/ (result st' = None
            /\ exists e, error st' = Some e /\ e <> []
                         /\ page st' ci = (Some e, ParcelResult.Nothing)))
    /\ (forall c d,
          o = Rejected (Some (c :: d)) -> error st' = Some (c :: d))
    /\ (o = Rejected None \/ o = Rejected (Some []) ->
        error st' = Some (lit "An error occurred while creating the parcel")).
Proof.
  intros ls message o st ci st'. subst st'. unfold submitted.
  destruct o as [data|detail]; simpl.
  - destruct (ParcelResult.success data) eqn:Hs; simpl.
    + split_and!; try done; [|by intros [|]]. left. exists data.
      split_and!; try done.
      unfold page; simpl. unfold ParcelResult.render.
      by destruct (ParcelResult.isClarifyingQuestion _).
    + split_and!; try done; [|by intros [|]]. right. split; [done|].
      by eexists.
  - split_and!; try done.
    + right. split; [done|].
      destruct detail as [[|c d]|]; simpl; by eexists.
    + by intros c d [= ->].
    + by intros [[= ->]|[= ->]].
Qed.

Lemma submission_ends_in_result_or_error_witness :
  error (submitted Examples.loggedIn (lit "50kg paint")
           (Rejected (Some (lit "route not serviced"))) initial)
  = Some (lit "route not serviced").
Proof.
  destruct (submission_ends_in_result_or_error Examples.loggedIn
              (lit "50kg paint") (Rejected (Some (lit "route not serviced")))
              initial []) as (_ & _ & _ & _ & _ & H & _).
  by apply H.
Defined.

Lemma handleSubmit_nonempty (f : ParcelForm.State) (u : jsstring) :
  ParcelForm.handleSubmit f = Some u -> u <> [].
Proof.
  unfold ParcelForm.handleSubmit.
  destruct (ParcelForm.useQuickForm f).
  - intros [= <-]. discriminate.
  - destruct (truthy (trim (ParcelForm.message f))) eqn:Ht; [|discriminate].
    intros [= <-] E. by rewrite E in Ht.
Qed.

Lemma handleClarifyingSubmit_nonempty (ci u : jsstring) :
  ParcelResult.handleClarifyingSubmit ci = Some u -> u <> [].
Proof.
  unfold ParcelResult.handleClarifyingSubmit.
  destruct (truthy (trim ci)) eqn:Ht; [|discriminate].
  intros [= <-] E. by rewrite E in Ht.
Qed.

Lemma settle_isAuthenticated (o : PostOutcome) (st : State) :
  isAuthenticated (handleSubmit_settle o st) = isAuthenticated st.
Proof.
  destruct o as [data|detail]; simpl; [|reflexivity].
  by destruct (ParcelResult.success data).
Qed.

Lemma submit_requests_in_order (w : World) (u : jsstring) :
  requests_in_order w -> isAuthenticated (app w) = true -> u <> [] ->
  requests_in_order (submit u w).
Proof.
  intros [Htok Hall] Ha Hu. destruct (Htok Ha) as (t & Ht & Hne).
  unfold requests_in_order, submit; simpl. split; [by eauto|].
  apply Forall_app. split; [exact Hall|]. constructor; [|constructor].
  split; [exact Hu|]. exists t. split; [|exact Hne]. simpl.
  unfold AuthService.getAuthHeaders, SharedPref.getApiHeaders.
  rewrite lookup_insert_eq. simpl. by rewrite (token_lookup _ t).
Qed.

Lemma step_requests_in_order (w : World) (e : Event) (w' : World) :
  requests_in_order w -> step w e = Some w' -> requests_in_order w'.
Proof.
  intros Hinv Hstep. pose proof Hinv as [Htok Hall].
  destruct e; simpl in Hstep.
  - destruct (_ && _); simplify_eq; exact Hinv.
  - destruct (_ && _); simplify_eq; exact Hinv.
  - destruct (isAuthenticated _); simplify_eq; exact Hinv.
  - destruct (_ && _); simplify_eq; exact Hinv.
  - destruct (isAuthenticated (app w)) eqn:Ha; simpl in Hstep; [|discriminate].
    destruct (ParcelForm.canSubmit _ _); [|discriminate].
    destruct (ParcelForm.handleSubmit _) as [u|] eqn:Hu; simplify_eq;
      [|exact Hinv].
    apply submit_requests_in_order; [exact Hinv|exact Ha|].
    by eapply handleSubmit_nonempty.
  - destruct (_ && _); simplify_eq; exact Hinv.
  - destruct (isAuthenticated (app w)) eqn:Ha; simpl in Hstep; [|discriminate].
    destruct (clarifyingShown w); [|discriminate].
    destruct (ParcelResult.handleClarifyingSubmit _) as [u|] eqn:Hu;
      simplify_eq; [|exact Hinv].
    apply submit_requests_in_order; [exact Hinv|exact Ha|].
    by eapply handleClarifyingSubmit_nonempty.
  - destruct (pending w !! i); simplify_eq.
    unfold requests_in_order; simpl. rewrite settle_isAuthenticated.
    split; [exact Htok|]. by apply Forall_delete.
  - destruct (loading w); simplify_eq.
    unfold requests_in_order; simpl.
    split; [|exact Hall]. by destruct c, m.
  - destruct (isAuthenticated _) eqn:Ha; simplify_eq.
    unfold requests_in_order; simpl. split; [|exact Hall].
    intros _. by apply Htok.
  - destruct (isAuthenticated _); simplify_eq.
    unfold requests_in_order; simpl. by split.
  - destruct (isAuthenticated (app w)) eqn:Ha; [discriminate|].
    pose proof (login_all_or_nothing o (auth w) (storage w)) as Hlogin.
    destruct (AuthService.login _ _ _) as [[a ls] [data|err]]; simplify_eq.
    + destruct Hlogin as (_ & _ & t & _ & Hne & _ & _ & Ht & _).
      unfold requests_in_order; simpl. split; [|exact Hall].
      intros _. exists t. split; [|exact Hne].
      unfold SharedPref.token in Ht.
      destruct (ls !! "authToken"%string) as [v|]; [|by subst t].
      destruct v as [|c v]; simpl in Ht; by subst t.
    + destruct Hlogin as (_ & -> & _).
      unfold requests_in_order; simpl. split; [|exact Hall].
      by rewrite Ha.
Qed.

Lemma mount_requests_in_order (ls : SharedPref.Storage) :
  requests_in_order (mount ls).
Proof.
  unfold requests_in_order, mount; simpl. split; [|constructor].
  unfold AuthService.isAuthenticated, AuthService.constructor,
    SharedPref.token; simpl.
  destruct (ls !! "authToken"%string) as [[|c v]|]; simpl; try done.
  intros _. by eexists.
Qed.

(** No request leaves without text and a token.  At any point of any run
    the form is on the page only while [localStorage] holds a non-empty
    token, and every post awaiting its answer has a non-empty message and
    an [Authorization] header that is not empty. *)
Theorem requests_carry_text_and_token :
  forall (ls : SharedPref.Storage) (es : list Event) (w : World),
    run (mount ls) es = Some w ->
    (isAuthenticated (app w) = true ->
     exists t, storage w !! "authToken"%string = Some t /\ t <> [])
    /\ Forall
         (fun rq =>
            body_message rq <> []
            /\ exists t, headers rq !! "Authorization"%string = Some t
                         /\ t <> [])
         (pending w).
Proof.
  intros ls es w Hrun.
  eapply (run_invariant requests_in_order);
    [|apply mount_requests_in_order|exact Hrun].
  intros; by eapply step_requests_in_order.
Qed.

Lemma requests_carry_text_and_token_witness :
  Forall
    (fun rq =>
       body_message rq <> []
       /\ exists t, headers rq !! "Authorization"%string = Some t /\ t <> [])
    (pending Examples.answerSent).
Proof.
  eapply (requests_carry_text_and_token Examples.loggedIn Examples.twoTurns).
  vm_compute. reflexivity.
Defined.

(** An answer outlives the session it was asked in.  When the user logs
    out while a post is awaiting its answer and the answer then comes with
    [success], the page stores it although nobody is logged in, and it is
    still the result on the page after the next login, whoever logs in. *)
Theorem answer_after_logout_is_kept :
  forall (w : World) (data : ParcelResult.Result),
    isAuthenticated (app w) = true ->
    pending w <> [] ->
    ParcelResult.success data = true ->
    exists w1 w2,
      step w Logout = Some w1
      /\ step w1 (PostSettles 0 (Resolved data)) = Some w2
      /\ isAuthenticated (app w2) = false
      /\ result (app w2) = Some data
      /\ forall (o : AuthService.FetchOutcome) (w3 : World),
           step w2 (Login o) = Some w3 -> result (app w3) = Some data.
Proof.
  intros w data Ha Hp Hs.
  destruct (pending w) as [|rq rest] eqn:E; [done|].
  eexists _, _. split; [simpl; rewrite Ha; reflexivity|].
  split; [simpl; rewrite E; reflexivity|]. simpl. rewrite Hs. simpl.
  split; [reflexivity|]. split; [reflexivity|].
  intros o w3.
  destruct (AuthService.login _ _ _) as [[a ls] [d|err]]; by intros [= <-].
Qed.

Lemma answer_after_logout_is_kept_witness :
  exists w1 w2,
    step Examples.answerSent Logout = Some w1
    /\ step w1 (PostSettles 0 (Resolved Examples.receipt)) = Some w2
    /\ result (app w2) = Some Examples.receipt.
Proof.
  destruct (answer_after_logout_is_kept Examples.answerSent Examples.receipt)
    as (w1 & w2 & H1 & H2 & _ & H3 & _); [reflexivity|discriminate|reflexivity|].
  by exists w1, w2.
Defined.

(** The page never stays busy.  At any point of any run, a post that is
    awaiting its answer can be answered in any way, and the answer leaves
    nothing in flight and the page idle, so the submit button is disabled
    from then on only if the form is not valid. *)
Theorem answer_reopens_the_form :
  forall (ls : SharedPref.Storage) (es : list Event) (w : World)
         (o : PostOutcome),
    run (mount ls) es = Some w ->
    pending w <> [] ->
    exists w',
      step w (PostSettles 0 o) = Some w'
      /\ pending w' = []
      /\ isLoading (app w') = false
      /\ form w' = form w
      /\ ParcelForm.submitDisabled (isLoading (app w')) (form w')
         = negb (ParcelForm.isFormValid (form w')).
Proof.
  intros ls es w o Hrun Hp.
  assert (one_in_flight w) as (Hlen & _ & _).
  { eapply (run_invariant one_in_flight);
      [|apply mount_one_in_flight|exact Hrun].
    intros; by eapply step_one_in_flight. }
  destruct (pending w) as [|rq [|rq' rest]] eqn:E; [done| |simpl in Hlen; lia].
  eexists. simpl. rewrite E. simpl. split; [reflexivity|]. simpl.
  assert (isLoading (handleSubmit_settle o (app w)) = false) as Hl.
  { destruct o as [data|detail]; simpl; [|reflexivity].
    by destruct (ParcelResult.success data). }
  split; [reflexivity|]. split; [exact Hl|]. split; [reflexivity|].
  unfold ParcelForm.submitDisabled. rewrite Hl. apply orb_false_r.
Qed.

Lemma answer_reopens_the_form_witness :
  exists w',
    step Examples.answerSent
      (PostSettles 0 (Resolved Examples.receipt)) = Some w'
    /\ pending w' = [].
Proof.
  destruct (answer_reopens_the_form Examples.loggedIn Examples.twoTurns
              Examples.answerSent (Resolved Examples.receipt))
    as (w' & H1 & H2 & _).
  - vm_compute. reflexivity.
  - discriminate.
  - by exists w'.
Defined.

End AppProperties.

(** ** ParcelForm, further *)

Section FormEditing.

Import ParcelForm.

(** Editing the quick form changes the field that is named and nothing
    else: the field reads back the new value, the other four fields, the
    free-text message and the mode are as before, a second edit of the
    same field replaces the first, and edits of different fields can be
    made in either order.  Switching the mode keeps the message and all
    five fields, and switching twice gives the form back. *)
Theorem form_edits_are_local :
  forall (field : Field) (value : jsstring) (f : State),
    getField field (quickFormData (handleQuickFormChange field value f)) = value
    /\ (forall other, other <> field ->
          getField other (quickFormData (handleQuickFormChange field value f))
          = getField other (quickFormData f))
    /\ message (handleQuickFormChange field value f) = message f
    /\ useQuickForm (handleQuickFormChange field value f) = useQuickForm f
    /\ (forall value',
          handleQuickFormChange field value'
            (handleQuickFormChange field value f)
          = handleQuickFormChange field value' f)
    /\ (forall other value', other <> field ->
          handleQuickFormChange other value'
            (handleQuickFormChange field value f)
          = handleQuickFormChange field value
              (handleQuickFormChange other value' f))
    /\ message (toggleQuickForm f) = message f
    /\ quickFormData (toggleQuickForm f) = quickFormData f
    /\ toggleQuickForm (toggleQuickForm f) = f.
Proof.
  intros field value f. split_and!.
  - by destruct field.
  - intros other Hne. by destruct field, other.
  - reflexivity.
  - reflexivity.
  - intros value'. by destruct field.
  - intros other value' Hne. by destruct field, other.
  - reflexivity.
  - reflexivity.
  - destruct f as [m q d]. unfold toggleQuickForm; simpl.
    by rewrite negb_involutive.
Qed.

Lemma form_edits_are_local_witness :
  getField Company
    (quickFormData (handleQuickFormChange Weight (lit "50") initial))
  = getField Company (quickFormData initial).
Proof.
  destruct (form_edits_are_local Weight (lit "50") initial) as (_ & H & _).
  apply H. discriminate.
Defined.

(** The button and the handler agree.  Whenever a click on the submit
    button gets through (the button is enabled and the browser finds the
    controls valid), no request is in flight and [handleSubmit] does call
    [onSubmit], with a text that is not empty: the trimmed message in
    free-text mode, the generated sentence in quick-form mode.  In
    free-text mode the handler calls [onSubmit] exactly when the form is
    valid. *)
Theorem enabled_submit_always_posts :
  forall (isLoading : bool) (f : State),
    (canSubmit isLoading f = true ->
     isLoading = false
     /\ exists u,
          handleSubmit f = Some u /\ u <> []
          /\ u = if useQuickForm f then generatedMessage (quickFormData f)
                 else trim (message f))
    /\ (useQuickForm f = false ->
        (isFormValid f = true <-> exists u, handleSubmit f = Some u)).
Proof.
  intros isLoading f. split.
  - unfold canSubmit, submitDisabled.
    intros [Hb _]%andb_true_iff.
    apply negb_true_iff, orb_false_iff in Hb as [Hv Hl].
    apply negb_false_iff in Hv. split; [exact Hl|].
    unfold isFormValid in Hv. unfold handleSubmit.
    destruct (useQuickForm f).
    + eexists. split; [reflexivity|]. split; [discriminate|reflexivity].
    + rewrite Hv. eexists. split; [reflexivity|]. split; [|reflexivity].
      intros E. by rewrite E in Hv.
  - intros Hq. unfold isFormValid, handleSubmit. rewrite Hq.
    destruct (truthy (trim (message f))); split; try done.
    + by eexists.
    + by intros [u [=]].
Qed.

Lemma enabled_submit_always_posts_witness :
  exists u,
    handleSubmit (setMessage (lit "  50kg paint ") initial) = Some u
    /\ u <> [].
Proof.
  destruct (enabled_submit_always_posts false
              (setMessage (lit "  50kg paint ") initial)) as [H _].
  destruct (H eq_refl) as (_ & u & Hu & Hne & _).
  by exists u.
Defined.

End FormEditing.

(** ** VoiceRecorder *)

Section VoiceRecorderProperties.

Import VoiceRecorder.

Lemma trimStart_id (s : jsstring) :
  (forall c, head s = Some c -> is_ws c = false) -> trimStart s = s.
Proof.
  destruct s as [|c s]; simpl; [reflexivity|].
  intros H. by rewrite (H c eq_refl).
Qed.

Lemma trimEnd_id (s : jsstring) :
  (forall c, last s = Some c -> is_ws c = false) -> trimEnd s = s.
Proof.
  induction s as [|a s IH]; simpl; [reflexivity|].
  intros H. destruct s as [|b s].
  - simpl. by rewrite (H a eq_refl).
  - rewrite IH; [reflexivity|]. intros c Hc. apply H.
    by rewrite last_cons, Hc.
Qed.

(** Trimming a text that has no whitespace at either end changes
    nothing. *)
Lemma trimmed_trim (s : jsstring) : trimmed s -> trim s = s.
Proof.
  intros [Hh Hl]. unfold trim. rewrite (trimStart_id s Hh).
  by apply trimEnd_id.
Qed.

Lemma collect_foldl (rs : list SpeechResult) (a b : jsstring) :
  foldl
    (fun acc r =>
       if isFinal r then (acc.1 ++ r_transcript r, acc.2)
       else (acc.1, acc.2 ++ r_transcript r))
    (a, b) rs
  = (a ++ concat (List.map r_transcript (List.filter isFinal rs)),
     b ++ concat (List.map r_transcript
                    (List.filter (fun r => negb (isFinal r)) rs))).
Proof.
  revert a b. induction rs as [|r rs IH]; intros a b; simpl.
  - by rewrite !app_nil_r.
  - destruct (isFinal r); simpl; rewrite IH; simpl; by rewrite <- app_assoc.
Qed.

(** The loop of [onresult] sorts the results from [resultIndex] on: the
    final ones, in order, are appended to the final transcript the
    component holds, so what was recognised before is never lost; the
    others, in order, replace the interim transcript.  An event whose
    [resultIndex] is at or past the end of its results adds nothing and
    empties the interim transcript. *)
Theorem onresult_accumulates :
  forall (c : Captured) (ev : ResultEvent) (st : State),
    let rs := drop (resultIndex ev) (results ev) in
    finalTranscript (onresult c ev st)
    = finalTranscript st
      ++ concat (List.map r_transcript (List.filter isFinal rs))
    /\ interimTranscript (onresult c ev st)
       = concat (List.map r_transcript
                   (List.filter (fun r => negb (isFinal r)) rs))
    /\ (length (finalTranscript (onresult c ev st))
        + length (interimTranscript (onresult c ev st))
        = length (finalTranscript st)
          + length (concat (List.map r_transcript rs)))%nat
    /\ ((length (results ev) <= resultIndex ev)%nat ->
        finalTranscript (onresult c ev st) = finalTranscript st
        /\ interimTranscript (onresult c ev st) = []).
Proof.
  intros c ev st rs. unfold onresult, collect. fold rs.
  rewrite collect_foldl. simpl. split; [reflexivity|]. split; [reflexivity|].
  split.
  - rewrite length_app, <- Nat.add_assoc. f_equal.
    clear. induction rs as [|r rs IH]; simpl; [reflexivity|].
    destruct (isFinal r); simpl; rewrite !length_app; lia.
  - intros Hle. subst rs. rewrite drop_ge by exact Hle. simpl.
    by rewrite app_nil_r.
Qed.

Lemma onresult_accumulates_witness :
  finalTranscript
    (onresult Examples.staleClosure Examples.pastTheEnd Examples.heard)
  = finalTranscript Examples.heard.
Proof.
  destruct (onresult_accumulates Examples.staleClosure Examples.pastTheEnd
              Examples.heard) as (_ & _ & _ & H).
  apply H. simpl. lia.
Defined.

Lemma step_transcript_trimmed (st : State) (e : Event) :
  trimmed (transcript st) ->
  trimmed (transcript (step st e).1)
  /\ forall t, (step st e).2 = Some t -> t <> [] /\ trimmed t.
Proof.
  intros Ht. destruct e; simpl; try (split; [exact Ht|discriminate]).
  - split; [apply trim_trimmed|discriminate].
  - unfold onend.
    destruct (truthy (trim (c_finalTranscript c ++ c_interimTranscript c)))
      eqn:E; simpl.
    + split; [apply trim_trimmed|]. intros t [= <-].
      split; [|apply trim_trimmed]. intros E'. by rewrite E' in E.
    + split; [exact Ht|discriminate].
  - unfold startRecording.
    destruct (negb (isSupported st) || negb (recognitionRef st)); simpl;
      (split; [|discriminate]); [exact Ht|].
    split; discriminate.
  - split; [exact Ht|]. unfold sendToChat.
    destruct (isSupported st && truthy (transcript st) && negb (isRecording st))
      eqn:E; [|discriminate].
    intros t [= <-]. split; [|exact Ht].
    apply andb_true_iff in E as [[_ E]%andb_true_iff _].
    intros E'. by rewrite E' in E.
Qed.

Lemma run_transcript_trimmed (es : list Event) (st : State) :
  trimmed (transcript st) ->
  trimmed (transcript (run st es).1)
  /\ Forall (fun t => t <> [] /\ trimmed t) (run st es).2.
Proof.
  revert st. induction es as [|e es IH]; intros st Ht; simpl.
  - split; [exact Ht|constructor].
  - destruct (step_transcript_trimmed st e Ht) as [Ht1 Hd].
    destruct (step st e) as [st1 d]. simpl in *.
    destruct (IH st1 Ht1) as [Ht2 Hds].
    destruct (run st1 es) as [st2 ds]. simpl in *.
    split; [exact Ht2|].
    destruct d as [t|]; [|exact Hds]. constructor; [|exact Hds].
    by apply Hd.
Qed.

(** Whatever the recogniser does, the [transcript] state (the text shown
    when no recording is going on, and the one "Send to Chat" sends) has
    no whitespace at either end, and every text the recorder hands to
    [onTranscriptionComplete], at the end of a recording or through "Send
    to Chat", is non-empty and trimmed.  So when [ParcelForm] puts such a
    text in its message box the form is valid, and submitting posts that
    text as it is.  Nothing is said of [finalTranscript] and
    [interimTranscript], which are shown as they are during a
    recording. *)
Theorem voice_transcript_posted_unchanged :
  forall (hasSpeechRecognition : bool) (es : list Event),
    trimmed (transcript (run (setup hasSpeechRecognition initial) es).1)
    /\ Forall
         (fun t =>
            t <> [] /\ trimmed t
            /\ forall d : ParcelForm.QuickFormData,
                 let f := {| ParcelForm.message := t;
                             ParcelForm.useQuickForm := false;
                             ParcelForm.quickFormData := d |} in
                 ParcelForm.isFormValid f = true
                 /\ ParcelForm.handleSubmit f = Some t)
         (run (setup hasSpeechRecognition initial) es).2.
Proof.
  intros hasSR es.
  assert (trimmed (transcript (setup hasSR initial))) as H0.
  { destruct hasSR; simpl; split; discriminate. }
  destruct (run_transcript_trimmed es _ H0) as [Ht Hds].
  split; [exact Ht|].
  eapply Forall_impl; [exact Hds|]. simpl.
  intros t [Hne Htr]. split; [exact Hne|]. split; [exact Htr|].
  intros d. unfold ParcelForm.isFormValid, ParcelForm.handleSubmit; simpl.
  rewrite (trimmed_trim t Htr). by destruct t.
Qed.



(** The "Last recording" text is the transcript when it has at most 150
    code units and its first 150 followed by three dots otherwise, so it
    is never longer than 153 and always starts as the transcript does.
    The hint for long texts appears only above 200 code units, when the
    text shown is already cut. *)
Theorem lastRecordingLabel_bounded :
  forall t : jsstring,
    (length (lastRecordingLabel t) <= 153)%nat
    /\ take 150 (lastRecordingLabel t) = take 150 t
    /\ ((length t <= 150)%nat -> lastRecordingLabel t = t)
    /\ (longTextHint t = true ->
        lastRecordingLabel t = take 150 t ++ lit "...").
Proof.
  intros t. unfold lastRecordingLabel, longTextHint.
  destruct (150 <? length t)%nat eqn:E.
  - apply Nat.ltb_lt in E. split_and!.
    + rewrite length_app, length_take.
      change (length (lit "...")) with 3%nat. lia.
    + rewrite take_app_le by (rewrite length_take; lia).
      by rewrite take_take.
    + lia.
    + reflexivity.
  - apply Nat.ltb_ge in E. split_and!; try done; [lia|].
    intros H%Nat.ltb_lt. lia.
Qed.

Lemma lastRecordingLabel_bounded_witness :
  lastRecordingLabel (lit "50kg paint") = lit "50kg paint".
Proof.
  destruct (lastRecordingLabel_bounded (lit "50kg paint")) as (_ & _ & H & _).
  apply H. simpl. lia.
Defined.

End VoiceRecorderProperties.
